(** * DeviceTracker (src/e2ee/DeviceTracker.ts)

    A shallow embedding of the device-list tracker of the matrix-bot-sdk
    end-to-end-encryption layer: [flagUsersOutdated] and
    [updateUsersDeviceLists].

    The development has two layers.
    - The per-device checks of lines 49-83 and the per-user loop of lines
      45-89 as pure functions, read against a snapshot of the crypto store
      ([device_verdict], [validate_user], [commit_pass]).
    - An executable model of the asynchronous code: every [await] is a
      suspension point, a state holds the crypto store, the registry
      [deviceListUpdates], the promises it stores, the live async
      activations and the outcome of every top-level call, and a schedule
      (a list of [Choice]s) picks which activation resumes next. *)

From Stdlib Require Import String Bool.
From stdpp Require Import base gmap list strings.

(* ------------------------------------------------------------------ *)
(** ** Data model *)

(** A JSON object as parsed by [JSON.parse]: its own keys in [Object.keys]
    order, each at most once.  [get o k] is [o[k]]. *)
Definition obj (A : Type) := list (string * A).

Fixpoint get {A} (o : obj A) (k : string) : option A :=
  match o with
  | [] => None
  | (k', v) :: o' => if String.eqb k' k then Some v else get o' k
  end.

(** [UserDevice] of models/Crypto: the fields the tracker reads. *)
Record UserDevice := mkUserDevice {
  user_id : string;
  device_id : string;
  keys : obj string;
  signatures : option (obj (obj string))   (* optional field *)
}.

(** Modelled from the spec: the values of the [DeviceKeyAlgorithm] enum
    (models/Crypto, not under src/), the Ed25519 and Curve25519 algorithm
    names that prefix the namespaced key slots. *)
Definition DeviceKeyAlgorithm_Ed25119 : string := "ed25519".
Definition DeviceKeyAlgorithm_Curve25519 : string := "curve25519".

(** The template literal [`${alg}:${deviceId}`]. *)
Definition key_name (alg deviceId : string) : string := alg ++ ":" ++ deviceId.

(** JavaScript truthiness of a [string | undefined]: [undefined] and [""]
    are falsy. *)
Definition truthy (o : option string) : bool :=
  match o with
  | Some s => negb (String.eqb s "")
  | None => false
  end.

(** Why a device was ignored: one warning text per [continue] of the loop. *)
Inductive Reason :=
| ServerLying        (* line 50 *)
| MissingKey         (* line 58 *)
| Compromised        (* line 68 *)
| MissingSignature   (* line 75 *)
| InvalidSignature.  (* line 81 *)

Inductive Event :=
| EvWarn (r : Reason) (userId deviceId : string)      (* LogService.warn *)
| EvFetch (call h : nat) (userIds : list string)      (* client.getUserDevices issued *)
| EvRegister (h : nat) (userIds : list string)        (* line 92 *)
| EvFetchOk (h : nat) (resp : obj (obj UserDevice))   (* the response of that fetch *)
| EvFetchFailed (h : nat)                             (* the async executor rejects *)
| EvSetDevices (h : nat) (userId : string) (ds : list UserDevice)  (* line 88 *)
| EvFlagOutdated (userIds : list string)              (* cryptoStore.flagUsersOutdated *)
| EvResolve (h : nat).                                (* line 90 *)

(* ------------------------------------------------------------------ *)
(** ** The per-device checks (lines 49-83) *)

(** Lines 49-60: identity consistency, then the two key slots.  On
    success the Ed25519 key read at line 54. *)
Definition precheck (userId deviceId : string) (device : UserDevice)
  : Reason + string :=
  if negb (String.eqb (user_id device) userId) || negb (String.eqb (device_id device) deviceId)
  then inl ServerLying
  else
    let ed25519 := get (keys device) (key_name DeviceKeyAlgorithm_Ed25119 deviceId) in
    let curve25519 := get (keys device) (key_name DeviceKeyAlgorithm_Curve25519 deviceId) in
    if negb (truthy ed25519) || negb (truthy curve25519) then inl MissingKey
    else match ed25519 with Some k => inr k | None => inl MissingKey end.

(** Lines 63-71: [existingDevice] is the first stored device with this
    device id; the claim is kept when there is none, or when its stored
    Ed25519 key is (strictly) equal to the claimed one. *)
Definition pin_ok (deviceId ed25519 : string) (currentDevices : list UserDevice) : bool :=
  match find (fun d => String.eqb (device_id d) deviceId) currentDevices with
  | Some existingDevice =>
      match get (keys existingDevice) (key_name DeviceKeyAlgorithm_Ed25119 deviceId) with
      | Some existingEd25519 => String.eqb existingEd25519 ed25519
      | None => false            (* undefined !== ed25519 *)
      end
  | None => true
  end.

(** Line 73: [device.signatures?.[userId]?.[`ed25519:${deviceId}`]],
    kept only when truthy (line 74). *)
Definition get_signature (userId deviceId : string) (device : UserDevice) : option string :=
  match signatures device with
  | Some sigs =>
      match get sigs userId with
      | Some byKey =>
          let s := get byKey (key_name DeviceKeyAlgorithm_Ed25119 deviceId) in
          if truthy s then s else None
      | None => None
      end
  | None => None
  end.

Section Tracker.

(** The signature verifier [client.crypto.verifySignature] (an external
    collaborator): a boolean function of the device, key and signature. *)
Variable verifySignature : UserDevice -> string -> string -> bool.

(** The outcome of one iteration of the inner loop, given the
    [currentDevices] read at line 62. *)
Definition device_verdict (currentDevices : list UserDevice)
    (userId deviceId : string) (device : UserDevice) : option Reason :=
  match precheck userId deviceId device with
  | inl r => Some r
  | inr ed25519 =>
      if negb (pin_ok deviceId ed25519 currentDevices) then Some Compromised
      else match get_signature userId deviceId device with
           | None => Some MissingSignature
           | Some signature =>
               if verifySignature device ed25519 signature then None
               else Some InvalidSignature
           end
  end.

(** Lines 46-86 run against one store snapshot [currentDevices]: the
    validated list (in push order) and the warnings logged. *)
Fixpoint validate_user (currentDevices : list UserDevice) (userId : string)
    (devs : obj UserDevice) : list UserDevice * list Event :=
  match devs with
  | [] => ([], [])
  | (deviceId, device) :: rest =>
      let '(vs, ws) := validate_user currentDevices userId rest in
      match device_verdict currentDevices userId deviceId device with
      | None => (device :: vs, ws)
      | Some r => (vs, EvWarn r userId deviceId :: ws)
      end
  end.

(** Modelled from the spec: the crypto store (storage/ICryptoStoreProvider,
    not under src/) keeps one device list per user, replaced as a whole by
    [setUserDevices]; [getUserDevices] reads it and yields no devices for
    a user it never stored. *)
Definition stored (devices : gmap string (list UserDevice)) (userId : string)
  : list UserDevice :=
  default [] (devices !! userId).

(** Lines 45-89 for a pass that no other activation interleaves with:
    each user of the response, in [Object.keys] order, is validated against
    the store as it is when that user's loop starts, then committed by a
    full replacement (line 88). *)
Fixpoint commit_pass (devices : gmap string (list UserDevice))
    (resp : obj (obj UserDevice)) : gmap string (list UserDevice) :=
  match resp with
  | [] => devices
  | (userId, devs) :: rest =>
      let validated := fst (validate_user (stored devices userId) userId devs) in
      commit_pass (<[userId := validated]> devices) rest
  end.

(* ------------------------------------------------------------------ *)
(** ** The asynchronous machine *)

(** The state of a [Promise<void>]: the promises of [deviceListUpdates]
    are named by numbers (handles). *)
Inductive HState := Pending | Fulfilled | Rejected.

Global Instance HState_eq_dec : EqDecision HState.
Proof. solve_decision. Defined.

Definition has_state (v : HState) (o : option HState) : bool :=
  match v, o with
  | Pending, Some Pending | Fulfilled, Some Fulfilled | Rejected, Some Rejected => true
  | _, _ => false
  end.

(** What [client.getUserDevices(userIds)] settles with. *)
Inductive FetchResult :=
| FetchOk (device_keys : obj (obj UserDevice))
| FetchErr.

(** The locals of the async executor of line 43 inside its loops. *)
Record ExCtx := mkExCtx {
  ex_h : nat;                        (* the [promise] it resolves *)
  ex_resp : obj (obj UserDevice);    (* resp.device_keys *)
  ex_users : obj (obj UserDevice);   (* users of the outer loop still to come *)
  ex_user : string;                  (* userId *)
  ex_validated : list UserDevice;    (* validated *)
  ex_devices : obj UserDevice        (* devices of the inner loop still to come *)
}.

Definition set_devices (c : ExCtx) (ds : obj UserDevice) : ExCtx :=
  mkExCtx (ex_h c) (ex_resp c) (ex_users c) (ex_user c) (ex_validated c) ds.

Definition push_validated (c : ExCtx) (d : UserDevice) : ExCtx :=
  mkExCtx (ex_h c) (ex_resp c) (ex_users c) (ex_user c) (ex_validated c ++ [d]) (ex_devices c).

(** Where an [updateUsersDeviceLists] activation is suspended. *)
Inductive SyncPhase :=
| SWait (hs : list nat)      (* line 40: await Promise.all(existingPromises) *)
| SAwaitOwn (h : nat).       (* line 93: await promise *)

(** A suspended async activation, by the [await] it is suspended at. *)
Inductive Task :=
| TSync (userIds : list string) (ph : SyncPhase)
| TFlag (userIds : list string) (resync : bool)      (* line 21 *)
| TExFetch (h : nat) (userIds : list string)         (* line 44 *)
| TExRead (c : ExCtx) (deviceId : string) (device : UserDevice) (ed25519 : string)  (* line 62 *)
| TExVerify (c : ExCtx) (deviceId : string) (device : UserDevice)
    (ed25519 signature : string)                     (* line 79 *)
| TExWrite (c : ExCtx).                              (* line 88 *)

(** How the promise of a top-level call settled. *)
Inductive Outcome := Returned | Threw.

Record State := mkState {
  st_devices : gmap string (list UserDevice);   (* the crypto store's device lists *)
  st_outdated : gset string;                    (* the crypto store's outdated flags *)
  st_registry : gmap string nat;                (* this.deviceListUpdates *)
  st_handles : gmap nat HState;
  st_next_handle : nat;
  st_tasks : gmap nat Task;                     (* suspended activations by id *)
  st_next_tid : nat;
  st_outcomes : gmap nat Outcome;               (* top-level calls, by activation id *)
  st_log : list Event
}.

Definition init (devices : gmap string (list UserDevice)) : State :=
  mkState devices ∅ ∅ ∅ 0 ∅ 0 ∅ [].

(** Field updates. *)
Definition with_tasks (f : gmap nat Task -> gmap nat Task) (s : State) : State :=
  mkState (st_devices s) (st_outdated s) (st_registry s) (st_handles s) (st_next_handle s)
    (f (st_tasks s)) (st_next_tid s) (st_outcomes s) (st_log s).

Definition with_log (evs : list Event) (s : State) : State :=
  mkState (st_devices s) (st_outdated s) (st_registry s) (st_handles s) (st_next_handle s)
    (st_tasks s) (st_next_tid s) (st_outcomes s) (st_log s ++ evs).

(** Settling a promise that is already settled does nothing. *)
Definition settle (h : nat) (v : HState) (hs : gmap nat HState) : gmap nat HState :=
  match hs !! h with
  | Some Pending => <[h := v]> hs
  | _ => hs
  end.

Definition settle_call (tid : nat) (o : Outcome) (s : State) : State :=
  mkState (st_devices s) (st_outdated s) (st_registry s) (st_handles s) (st_next_handle s)
    (delete tid (st_tasks s)) (st_next_tid s)
    (match st_outcomes s !! tid with None => <[tid := o]> (st_outcomes s) | Some _ => st_outcomes s end)
    (st_log s).

(** Line 38: the promises registered under the requested ids. *)
Fixpoint existing_promises (registry : gmap string nat) (userIds : list string) : list nat :=
  match userIds with
  | [] => []
  | u :: us =>
      match registry !! u with
      | Some h => h :: existing_promises registry us
      | None => existing_promises registry us
      end
  end.

(** Line 92: [userIds.forEach(u => this.deviceListUpdates[u] = promise)]. *)
Fixpoint register_all (userIds : list string) (h : nat) (registry : gmap string nat)
  : gmap string nat :=
  match userIds with
  | [] => registry
  | u :: us => register_all us h (<[u := h]> registry)
  end.

(** Lines 43-92 up to the first suspension, for activation [call]: the
    executor runs synchronously until it awaits the fetch it has issued
    (line 44), then the constructor returns, the promise is registered
    (line 92) and the activation awaits it (line 93). *)
Definition sync_start (call : nat) (userIds : list string) (s : State) : State :=
  let h := st_next_handle s in
  let etid := st_next_tid s in
  mkState (st_devices s) (st_outdated s)
    (register_all userIds h (st_registry s))
    (<[h := Pending]> (st_handles s)) (S h)
    (<[call := TSync userIds (SAwaitOwn h)]> (<[etid := TExFetch h userIds]> (st_tasks s)))
    (S etid) (st_outcomes s)
    (st_log s ++ [EvFetch call h userIds; EvRegister h userIds]).

(** A call of [updateUsersDeviceLists(userIds)] up to its first suspension. *)
Definition sync_call (userIds : list string) (s : State) : State :=
  let call := st_next_tid s in
  let s1 := mkState (st_devices s) (st_outdated s) (st_registry s) (st_handles s)
              (st_next_handle s) (st_tasks s) (S call) (st_outcomes s) (st_log s) in
  match existing_promises (st_registry s) userIds with
  | [] => sync_start call userIds s1
  | hs => with_tasks (insert call (TSync userIds (SWait hs))) s1
  end.

(** A call of [flagUsersOutdated(userIds, resync)]: it issues the store
    write and awaits it (line 21). *)
Definition flag_call (userIds : list string) (resync : bool) (s : State) : State :=
  let call := st_next_tid s in
  mkState (st_devices s) (st_outdated s) (st_registry s) (st_handles s) (st_next_handle s)
    (<[call := TFlag userIds resync]> (st_tasks s)) (S call) (st_outcomes s) (st_log s).

(** The executor from the top of an inner-loop iteration, run
    synchronously: devices failing lines 49-60 are skipped with their
    warning; it suspends at the store read of the first device that
    passes them (line 62), or at the commit (line 88) when none is left. *)
Fixpoint ex_continue (c : ExCtx) (devs : obj UserDevice) : Task * list Event :=
  match devs with
  | [] => (TExWrite c, [])
  | (deviceId, device) :: rest =>
      match precheck (ex_user c) deviceId device with
      | inl r =>
          let '(t, evs) := ex_continue c rest in
          (t, EvWarn r (ex_user c) deviceId :: evs)
      | inr ed25519 => (TExRead (set_devices c rest) deviceId device ed25519, [])
      end
  end.

(** The executor at the head of the outer loop (line 45): the next user's
    inner loop, or [resolve()] (line 90) when no user is left ([None]). *)
Definition ex_next_user (h : nat) (resp users : obj (obj UserDevice))
  : option Task * list Event :=
  match users with
  | [] => (None, [EvResolve h])
  | (userId, devs) :: rest =>
      let '(t, evs) := ex_continue (mkExCtx h resp rest userId [] []) devs in
      (Some t, evs)
  end.

(** Installing the executor's next suspension, or ending it and
    fulfilling its promise. *)
Definition ex_install (tid h : nat) (r : option Task * list Event) (s : State) : State :=
  let '(ot, evs) := r in
  match ot with
  | Some t => with_log evs (with_tasks (insert tid t) s)
  | None =>
      mkState (st_devices s) (st_outdated s) (st_registry s)
        (settle h Fulfilled (st_handles s)) (st_next_handle s)
        (delete tid (st_tasks s)) (st_next_tid s) (st_outcomes s) (st_log s ++ evs)
  end.

(** Resuming a suspended activation [tid] once what it awaits has
    completed; [None] when it cannot resume yet. *)
Definition resume (tid : nat) (t : Task) (s : State) : option State :=
  match t with
  | TSync userIds (SWait hs) =>
      (* Promise.all rejects as soon as one rejects, and fulfils when all do *)
      if existsb (fun h => has_state Rejected (st_handles s !! h)) hs
      then Some (settle_call tid Threw s)
      else if forallb (fun h => has_state Fulfilled (st_handles s !! h)) hs
      then Some (sync_start tid userIds s)
      else None
  | TSync _ (SAwaitOwn h) =>
      match st_handles s !! h with
      | Some Fulfilled => Some (settle_call tid Returned s)
      | Some Rejected => Some (settle_call tid Threw s)
      | _ => None
      end
  | TFlag userIds resync =>
      (* the store write completes; lines 22-26 run; the call returns *)
      let s1 := mkState (st_devices s) (st_outdated s ∪ list_to_set userIds)
                  (st_registry s) (st_handles s) (st_next_handle s)
                  (delete tid (st_tasks s)) (st_next_tid s) (st_outcomes s)
                  (st_log s ++ [EvFlagOutdated userIds]) in
      let s2 := if resync then sync_call userIds s1 else s1 in
      Some (settle_call tid Returned s2)
  | TExFetch _ _ => None
  | TExRead c deviceId device ed25519 =>
      (* line 62 completes: the store is read now *)
      let currentDevices := stored (st_devices s) (ex_user c) in
      if negb (pin_ok deviceId ed25519 currentDevices) then
        let '(t', evs) := ex_continue c (ex_devices c) in
        Some (with_log (EvWarn Compromised (ex_user c) deviceId :: evs) (with_tasks (insert tid t') s))
      else match get_signature (ex_user c) deviceId device with
           | None =>
               let '(t', evs) := ex_continue c (ex_devices c) in
               Some (with_log (EvWarn MissingSignature (ex_user c) deviceId :: evs)
                       (with_tasks (insert tid t') s))
           | Some signature =>
               Some (with_tasks (insert tid (TExVerify c deviceId device ed25519 signature)) s)
           end
  | TExVerify c deviceId device ed25519 signature =>
      if verifySignature device ed25519 signature then
        let c' := push_validated c device in
        let '(t', evs) := ex_continue c' (ex_devices c') in
        Some (with_log evs (with_tasks (insert tid t') s))
      else
        let '(t', evs) := ex_continue c (ex_devices c) in
        Some (with_log (EvWarn InvalidSignature (ex_user c) deviceId :: evs)
                (with_tasks (insert tid t') s))
  | TExWrite c =>
      (* line 88 completes: the user's list is replaced *)
      let s1 := mkState (<[ex_user c := ex_validated c]> (st_devices s)) (st_outdated s)
                  (st_registry s) (st_handles s) (st_next_handle s) (st_tasks s)
                  (st_next_tid s) (st_outcomes s)
                  (st_log s ++ [EvSetDevices (ex_h c) (ex_user c) (ex_validated c)]) in
      Some (ex_install tid (ex_h c) (ex_next_user (ex_h c) (ex_resp c) (ex_users c)) s1)
  end.

(** The completion of the fetch awaited by executor [tid] (line 44).  A
    rejection makes the async executor function reject; nothing settles
    the [promise] of line 43 then. *)
Definition fetch_done (tid h : nat) (r : FetchResult) (s : State) : State :=
  match r with
  | FetchOk resp =>
      ex_install tid h (ex_next_user h resp resp) (with_log [EvFetchOk h resp] s)
  | FetchErr =>
      mkState (st_devices s) (st_outdated s) (st_registry s) (st_handles s) (st_next_handle s)
        (delete tid (st_tasks s)) (st_next_tid s) (st_outcomes s)
        (st_log s ++ [EvFetchFailed h])
  end.

(** What the scheduler and the environment do next. *)
Inductive Choice :=
| CallSync (userIds : list string)                (* a caller starts updateUsersDeviceLists *)
| CallFlag (userIds : list string) (resync : bool) (* a caller starts flagUsersOutdated *)
| Resume (tid : nat)                              (* an awaited store, verify or promise completes *)
| FetchDone (tid : nat) (r : FetchResult).        (* an awaited fetch completes *)

Definition step (s : State) (ch : Choice) : option State :=
  match ch with
  | CallSync userIds => Some (sync_call userIds s)
  | CallFlag userIds resync => Some (flag_call userIds resync s)
  | Resume tid =>
      match st_tasks s !! tid with
      | Some t => resume tid t s
      | None => None
      end
  | FetchDone tid r =>
      match st_tasks s !! tid with
      | Some (TExFetch h _) => Some (fetch_done tid h r s)
      | _ => None
      end
  end.

Fixpoint run (s : State) (cs : list Choice) : option State :=
  match cs with
  | [] => Some s
  | ch :: cs' =>
      match step s ch with
      | Some s' => run s' cs'
      | None => None
      end
  end.

End Tracker.

(** The promise an executor activation settles. *)
Definition task_handle (t : Task) : option nat :=
  match t with
  | TExFetch h _ => Some h
  | TExRead c _ _ _ | TExVerify c _ _ _ _ | TExWrite c => Some (ex_h c)
  | _ => None
  end.

(** The loop locals of an executor activation. *)
Definition task_ctx (t : Task) : option ExCtx :=
  match t with
  | TExRead c _ _ _ | TExVerify c _ _ _ _ | TExWrite c => Some c
  | _ => None
  end.

(** The activation a choice resumes. *)
Definition choice_tid (ch : Choice) : option nat :=
  match ch with
  | Resume tid | FetchDone tid _ => Some tid
  | _ => None
  end.

(** The call whose fetch an event records. *)
Definition fetch_of (e : Event) : option nat :=
  match e with EvFetch call _ _ => Some call | _ => None end.

(* ------------------------------------------------------------------ *)
(** ** Concrete inputs *)

Definition alice : string := "@alice:example.org".

(** A stand-in for the signature check on concrete inputs: the signature
    of key [k] is the text ["sig-" ++ k]. *)
Definition toy_verify (device : UserDevice) (k signature : string) : bool :=
  String.eqb signature ("sig-" ++ k)%string.

(** A well-formed device of [alice] with Ed25519 key [ed], self-signed. *)
Definition alice_device (deviceId ed : string) : UserDevice :=
  mkUserDevice alice deviceId
    [(key_name DeviceKeyAlgorithm_Ed25119 deviceId, ed);
     (key_name DeviceKeyAlgorithm_Curve25519 deviceId, "C1")]
    (Some [(alice, [(key_name DeviceKeyAlgorithm_Ed25119 deviceId, ("sig-" ++ ed)%string)])]).

(** Two callers ask for [alice]'s devices; the first call's fetch
    (activation 1) fails while the second call (activation 2) waits on
    the first call's promise (handle 0). *)
Definition fetch_failure_prefix : list Choice :=
  [CallSync [alice]; CallSync [alice]; FetchDone 1 FetchErr].

(* ------------------------------------------------------------------ *)
(** ** Scenarios and invariants *)

(** After a failed fetch of the pass of promise [h] with nothing left to
    settle it, the promise stays pending, the activation [own] awaiting it
    at line 93 and the activation [waiter] awaiting it at line 40 never
    resume: neither returns nor throws, and [waiter] never fetches. *)
Definition orphaned (h own waiter : nat) (us : list string) (s : State) : Prop :=
  st_handles s !! h = Some Pending /\ h < st_next_handle s /\
  own < st_next_tid s /\ waiter < st_next_tid s /\
  (forall i t, st_tasks s !! i = Some t -> task_handle t <> Some h) /\
  st_tasks s !! own = Some (TSync us (SAwaitOwn h)) /\
  st_tasks s !! waiter = Some (TSync us (SWait [h])) /\
  st_outcomes s !! own = None /\ st_outcomes s !! waiter = None /\
  (forall e, e ∈ st_log s -> fetch_of e <> Some waiter).

(** The state [fetch_failure_prefix] leads to. *)
Definition fetch_failure_state (devices : gmap string (list UserDevice)) : State :=
  mkState devices ∅ (<[alice := 0]> ∅) (<[0 := Pending]> ∅) 1
    (<[0 := TSync [alice] (SAwaitOwn 0)]> (<[2 := TSync [alice] (SWait [0])]> ∅)) 3 ∅
    [EvFetch 0 0 [alice]; EvRegister 0 [alice]; EvFetchFailed 0].


(** Events an executor logs while it walks the response: warnings and
    the final [resolve()]. *)
Definition is_walk_event (e : Event) : bool :=
  match e with EvWarn _ _ _ | EvResolve _ => true | _ => false end.

(** Device lists are written only for users of a fetched response, and
    a user never written keeps its initial list. *)
Definition writes_from_response (devices0 : gmap string (list UserDevice)) (s : State) : Prop :=
  (forall h u ds, EvSetDevices h u ds ∈ st_log s ->
     exists resp, EvFetchOk h resp ∈ st_log s /\ u ∈ map fst resp) /\
  (forall i t c, st_tasks s !! i = Some t -> task_ctx t = Some c ->
     EvFetchOk (ex_h c) (ex_resp c) ∈ st_log s /\
     exists pre d, ex_resp c = pre ++ (ex_user c, d) :: ex_users c) /\
  (forall u, (forall h ds, EvSetDevices h u ds ∉ st_log s) ->
     st_devices s !! u = devices0 !! u).

(** Each pass's fetch completes at most once, so a handle names one
    response. *)
Definition fetch_once (s : State) : Prop :=
  (forall i h us, st_tasks s !! i = Some (TExFetch h us) ->
     (forall r, EvFetchOk h r ∉ st_log s) /\
     (forall j t, st_tasks s !! j = Some t -> task_handle t = Some h -> j = i)) /\
  (forall h r, EvFetchOk h r ∈ st_log s -> h < st_next_handle s) /\
  (forall i t h, st_tasks s !! i = Some t -> task_handle t = Some h -> h < st_next_handle s) /\
  (forall h r1 r2, EvFetchOk h r1 ∈ st_log s -> EvFetchOk h r2 ∈ st_log s -> r1 = r2).

(** A second user. *)
Definition bob : string := "@bob:example.org".

(** Three calls for [alice] and [bob]; passes 1 and 2 overlap, and pass
    2's response has no device for [alice]. *)
Definition overlap_schedule : list Choice :=
  [CallSync [alice; bob]; CallSync [alice; bob]; CallSync [alice; bob];
   FetchDone 1 (FetchOk []); Resume 2; Resume 3;
   FetchDone 4 (FetchOk [(alice, [("D1", alice_device "D1" "E1")]); (bob, [])]);
   Resume 4; Resume 4; Resume 4;
   FetchDone 5 (FetchOk [(alice, [])]); Resume 5;
   Resume 4; Resume 2].

(** Three passes for [alice] one after the other: D1 with key E1, then
    D1 with key E2 twice. *)
Definition repin_schedule : list Choice :=
  [CallSync [alice]; FetchDone 1 (FetchOk [(alice, [("D1", alice_device "D1" "E1")])]);
   Resume 1; Resume 1; Resume 1; Resume 0;
   CallSync [alice]; Resume 2; FetchDone 3 (FetchOk [(alice, [("D1", alice_device "D1" "E2")])]);
   Resume 3; Resume 3; Resume 2;
   CallSync [alice]; Resume 4; FetchDone 5 (FetchOk [(alice, [("D1", alice_device "D1" "E2")])]);
   Resume 5; Resume 5; Resume 5; Resume 4].

(** Three calls for [alice], nothing stored: call 0 runs a pass that
    finds no device, then calls 2 and 3 start overlapping passes 1 and 2. *)
Definition tofu_prefix : list Choice :=
  [CallSync [alice]; CallSync [alice]; CallSync [alice]; FetchDone 1 (FetchOk []);
   Resume 2; Resume 3].

(** Pass 1 commits D1 with key E1, then pass 2 receives D1 with key E2. *)
Definition tofu_suffix : list Choice :=
  [FetchDone 4 (FetchOk [(alice, [("D1", alice_device "D1" "E1")])]);
   Resume 4; Resume 4; Resume 4;
   FetchDone 5 (FetchOk [(alice, [("D1", alice_device "D1" "E2")])]);
   Resume 5; Resume 5].

(** A device that passes the checks of lines 49-60 as a device of user
    [u], listed under its own device id. *)
Definition passes_prechecks (u : string) (d : UserDevice) : Prop :=
  exists ed, precheck u (device_id d) d = inr ed.

(** The task [ex_continue] stops at carries the context's user and
    validated list, and a store read only for a claim that passed lines
    49-60. *)
Definition continue_shape (c : ExCtx) (t : Task) : Prop :=
  match t with
  | TExRead c' k d ed =>
      ex_user c' = ex_user c /\ ex_validated c' = ex_validated c /\
      precheck (ex_user c) k d = inr ed
  | TExWrite c' => ex_user c' = ex_user c /\ ex_validated c' = ex_validated c
  | _ => False
  end.

(** Every device an executor has validated, and every device list it
    wrote, passed the checks of lines 49-60 for its user. *)
Definition checked_writes (s : State) : Prop :=
  (forall i t c, st_tasks s !! i = Some t -> task_ctx t = Some c ->
     Forall (passes_prechecks (ex_user c)) (ex_validated c)) /\
  (forall i c k d ed, st_tasks s !! i = Some (TExRead c k d ed) ->
     precheck (ex_user c) k d = inr ed) /\
  (forall i c k d ed sig, st_tasks s !! i = Some (TExVerify c k d ed sig) ->
     precheck (ex_user c) k d = inr ed) /\
  (forall h u ds, EvSetDevices h u ds ∈ st_log s -> Forall (passes_prechecks u) ds).

(** The store holds a device list for [bob]; a pass for [alice] and
    [bob] gets a response listing [alice] only. *)
Definition frame_devices : gmap string (list UserDevice) :=
  {[bob := [mkUserDevice bob "B1" [] None]]}.

Definition frame_schedule : list Choice :=
  [CallSync [alice; bob]; FetchDone 1 (FetchOk [(alice, [("D1", alice_device "D1" "E1")])]);
   Resume 1; Resume 1; Resume 1; Resume 0].

(** An executor about to read the store for D1 of [alice] with key E2,
    while D1 is stored with key E1. *)
Definition repin_ctx : ExCtx :=
  mkExCtx 0 [(alice, [("D1", alice_device "D1" "E2")])] [] alice [] [].
Definition repin_state : State :=
  mkState {[alice := [alice_device "D1" "E1"]]} ∅ {[alice := 0]} {[0 := Pending]} 1
    {[1 := TExRead repin_ctx "D1" (alice_device "D1" "E2") "E2"]} 2 ∅ [].

(** A pass whose response lists only D2 for [alice], while D1 is
    stored for [alice]. *)
Definition replace_response : obj (obj UserDevice) :=
  [(alice, [("D2", alice_device "D2" "E2")])].
Definition replace_state : State :=
  mkState {[alice := [alice_device "D1" "E1"]]} ∅ {[alice := 0]} {[0 := Pending]} 1
    {[1 := TExFetch 0 [alice]]} 2 ∅ [].

(** A well-keyed, self-signed device of [bob] listed as D1 under
    [alice]. *)
Definition impostor_device : UserDevice :=
  mkUserDevice bob "D1" (keys (alice_device "D1" "E1")) (signatures (alice_device "D1" "E1")).
(** A device of [alice] with no Curve25519 key. *)
Definition keyless_device : UserDevice :=
  mkUserDevice alice "D1" [(key_name DeviceKeyAlgorithm_Ed25119 "D1", "E1")]
    (signatures (alice_device "D1" "E1")).
(** An executor at the start of [alice]'s inner loop. *)
Definition loop_ctx : ExCtx := mkExCtx 0 [] [] alice [] [].

(** The pass of promise [h] fetched [resp] and wrote the device list
    of every user of [resp]. *)
Definition written_all (s : State) (h : nat) (resp : obj (obj UserDevice)) : Prop :=
  EvFetchOk h resp ∈ st_log s /\
  forall u, u ∈ map fst resp -> exists ds, EvSetDevices h u ds ∈ st_log s.

(** Each executor has fetched its response and written the users before
    its current one, and a promise is resolved, and fulfilled, only after
    its pass wrote every user of its response. *)
Definition resolved_after_writes (s : State) : Prop :=
  (forall i t c, st_tasks s !! i = Some t -> task_ctx t = Some c ->
     exists pre d, ex_resp c = pre ++ (ex_user c, d) :: ex_users c /\
       EvFetchOk (ex_h c) (ex_resp c) ∈ st_log s /\
       forall u, u ∈ map fst pre -> exists ds, EvSetDevices (ex_h c) u ds ∈ st_log s) /\
  (forall h, EvResolve h ∈ st_log s -> exists resp, written_all s h resp) /\
  (forall h, st_handles s !! h = Some Fulfilled -> EvResolve h ∈ st_log s).

(** A call that issued its request awaits its own promise until it
    returns, and returns only once that promise is fulfilled; activations
    and handles not yet allocated are unused. *)
Definition call_invariant (s : State) : Prop :=
  (forall i h us, EvFetch i h us ∈ st_log s -> st_outcomes s !! i = Some Returned ->
     st_handles s !! h = Some Fulfilled) /\
  (forall i h us t, EvFetch i h us ∈ st_log s -> st_tasks s !! i = Some t ->
     t = TSync us (SAwaitOwn h)) /\
  (forall i t, st_tasks s !! i = Some t -> st_outcomes s !! i = None) /\
  (forall i, st_next_tid s <= i -> st_tasks s !! i = None /\ st_outcomes s !! i = None /\
     forall h us, EvFetch i h us ∉ st_log s) /\
  (forall h v, st_handles s !! h = Some v -> h < st_next_handle s).

(** Every promise in [deviceListUpdates] has been allocated. *)
Definition registry_bound (s : State) : Prop :=
  forall u h, st_registry s !! u = Some h -> h < st_next_handle s.

(** Each activation issues at most one request, each request has its
    own promise, and only allocated promises are requested. *)
Definition fetch_unique (s : State) : Prop :=
  (forall i h us i' h' us', EvFetch i h us ∈ st_log s -> EvFetch i' h' us' ∈ st_log s ->
     (i = i' -> h = h' /\ us = us') /\ (h = h' -> i = i')) /\
  (forall i h us, EvFetch i h us ∈ st_log s -> h < st_next_handle s).

(* ------------------------------------------------------------------ *)
(** ** Frame lemmas of one step *)

Ltac step_cases H :=
  unfold step, resume, fetch_done, flag_call, sync_call, sync_start, ex_install,
    settle_call, with_tasks, with_log in H;
  repeat (case_match; simplify_eq); simplify_eq;
  cbn [st_devices st_outdated st_registry st_handles st_next_handle st_tasks
       st_next_tid st_outcomes st_log ex_h ex_user ex_validated ex_devices
       set_devices push_validated choice_tid task_handle] in *.

Lemma ex_continue_handle c devs t evs :
  ex_continue c devs = (t, evs) ->
  task_handle t = Some (ex_h c) /\ Forall (fun e => fetch_of e = None) evs.
Proof.
  revert t evs. induction devs as [|[k d] rest IH]; intros t evs Hc; simpl in Hc.
  - simplify_eq/=. auto.
  - destruct (precheck _ _ _) eqn:Hp.
    + destruct (ex_continue c rest) as [t' evs'] eqn:He. simplify_eq/=.
      destruct (IH _ _ eq_refl) as [? ?]. split; [done | by constructor].
    + simplify_eq/=. auto.
Qed.

Lemma ex_next_user_handle h resp users ot evs :
  ex_next_user h resp users = (ot, evs) ->
  (forall t, ot = Some t -> task_handle t = Some h) /\ Forall (fun e => fetch_of e = None) evs.
Proof.
  unfold ex_next_user. destruct users as [|[u devs] rest].
  - intros; simplify_eq/=. split; [done | repeat constructor].
  - destruct (ex_continue _ devs) as [t' evs'] eqn:He. intros; simplify_eq/=.
    apply ex_continue_handle in He as [? ?]. split; [|done]. by intros ? [= <-].
Qed.

Section Frame.
Variable verifySignature : UserDevice -> string -> string -> bool.

Lemma step_next_tid s ch s' :
  step verifySignature s ch = Some s' -> st_next_tid s <= st_next_tid s'.
Proof. intros H. step_cases H; lia. Qed.

Lemma step_next_handle s ch s' :
  step verifySignature s ch = Some s' -> st_next_handle s <= st_next_handle s'.
Proof. intros H. step_cases H; lia. Qed.

Lemma step_log s ch s' :
  step verifySignature s ch = Some s' ->
  exists evs, st_log s' = st_log s ++ evs /\
    Forall (fun e => forall c, fetch_of e = Some c ->
                     st_next_tid s <= c \/ choice_tid ch = Some c) evs.
Proof.
  intros H. step_cases H;
    repeat match goal with
    | E : ex_continue _ _ = _ |- _ => apply ex_continue_handle in E as [_ ?]
    | E : ex_next_user _ _ _ = _ |- _ => apply ex_next_user_handle in E as [_ ?]
    end;
    (first [ exists []; split; [by rewrite app_nil_r | by constructor]
           | eexists; split; [rewrite <-?app_assoc; reflexivity|] ]);
    rewrite ?Forall_app, ?Forall_cons; repeat split; try apply Forall_nil;
    try (intros; simplify_eq/=; auto with lia);
    try (eapply Forall_impl; [eassumption|]; intros ? E ? E'; rewrite E in E'; discriminate).
Qed.

Ltac map_neq :=
  repeat first
    [ rewrite lookup_insert_ne by (congruence || lia)
    | rewrite lookup_delete_ne by (congruence || lia) ].

Lemma step_tasks_frame s ch s' i :
  step verifySignature s ch = Some s' ->
  i < st_next_tid s -> choice_tid ch <> Some i ->
  st_tasks s' !! i = st_tasks s !! i.
Proof. intros H Hi Hc. step_cases H; map_neq; done. Qed.

Lemma settle_lookup_ne h h' v hs : h <> h' -> settle h v hs !! h' = hs !! h'.
Proof. unfold settle. intros. case_match; [case_match|]; map_neq; done. Qed.

Lemma step_outcomes_keep s ch s' i o :
  step verifySignature s ch = Some s' ->
  st_outcomes s !! i = Some o -> st_outcomes s' !! i = Some o.
Proof.
  intros H Ho. step_cases H; try done;
    destruct (decide (tid = i)); subst; simplify_eq; map_neq; done.
Qed.

Lemma step_outcomes_new s ch s' i :
  step verifySignature s ch = Some s' ->
  st_outcomes s !! i = None -> st_outcomes s' !! i <> None -> choice_tid ch = Some i.
Proof.
  intros H Ho Hn. step_cases H; try done;
    destruct (decide (tid = i)); subst; try done; exfalso; apply Hn; map_neq; done.
Qed.

Lemma step_handles_frame s ch s' h :
  step verifySignature s ch = Some s' ->
  h < st_next_handle s -> st_handles s' !! h <> st_handles s !! h ->
  exists tid t, choice_tid ch = Some tid /\ st_tasks s !! tid = Some t /\ task_handle t = Some h.
Proof.
  intros H Hh Hn. step_cases H; try (exfalso; apply Hn; map_neq; done).
  all: exists tid; eexists; split; [done|]; split; [eassumption|]; simpl.
  all: match goal with |- Some ?x = Some ?y =>
         destruct (decide (x = y)); [by subst|];
         exfalso; apply Hn; rewrite settle_lookup_ne by congruence; done end.
Qed.

Lemma step_task_handles s ch s' i t' h :
  step verifySignature s ch = Some s' ->
  st_tasks s' !! i = Some t' -> task_handle t' = Some h ->
  (exists t, st_tasks s !! i = Some t /\ task_handle t = Some h) \/ h = st_next_handle s.
Proof.
  intros H Hi Ht. step_cases H;
    repeat match goal with
    | E : ex_continue _ _ = _ |- _ => apply ex_continue_handle in E as [? _]
    | E : ex_next_user _ _ _ = _ |- _ => apply ex_next_user_handle in E as [E _];
                                        try specialize (E _ eq_refl)
    end;
    repeat match type of Hi with
    | <[_:=_]> _ !! _ = Some _ => apply lookup_insert_Some in Hi as [[? ?]|[? Hi]]
    | delete _ _ !! _ = Some _ => apply lookup_delete_Some in Hi as [? Hi]
    end; subst; simplify_eq/=; eauto.
  all: left; eexists; split; [eassumption|]; simpl; congruence.
Qed.

Lemma step_devices s ch s' :
  step verifySignature s ch = Some s' ->
  st_devices s' = st_devices s \/
  exists tid c, ch = Resume tid /\ st_tasks s !! tid = Some (TExWrite c) /\
    st_devices s' = <[ex_user c := ex_validated c]> (st_devices s).
Proof. intros H. step_cases H; eauto 10. Qed.
End Frame.

Section Runs.
Variable verifySignature : UserDevice -> string -> string -> bool.

Lemma run_app s cs1 cs2 :
  run verifySignature s (cs1 ++ cs2) =
  match run verifySignature s cs1 with
  | Some s1 => run verifySignature s1 cs2
  | None => None
  end.
Proof.
  revert s. induction cs1 as [|ch cs1 IH]; intros s; simpl; [done|].
  destruct (step _ s ch); [apply IH | done].
Qed.

Lemma run_invariant (P : State -> Prop) s cs s' :
  (forall s0 ch s1, P s0 -> step verifySignature s0 ch = Some s1 -> P s1) ->
  P s -> run verifySignature s cs = Some s' -> P s'.
Proof.
  intros Hstep. revert s. induction cs as [|ch cs IH]; intros s Hs Hrun; simpl in Hrun.
  - by simplify_eq.
  - destruct (step _ s ch) as [s1|] eqn:E; [|done]. eauto.
Qed.

(** An activation whose resumption is not possible is not the one a
    successful step resumes. *)
Lemma step_blocked s ch s' i t :
  st_tasks s !! i = Some t -> resume verifySignature i t s = None ->
  (forall h us, t <> TExFetch h us) ->
  step verifySignature s ch = Some s' -> choice_tid ch <> Some i.
Proof.
  intros Ht Hr Hf H. destruct ch as [| |tid|tid r]; simpl; try done; intros [= <-].
  - simpl in H. rewrite Ht, Hr in H. done.
  - simpl in H. rewrite Ht in H. destruct t; try done. by eapply Hf.
Qed.

Lemma orphaned_step h own waiter us s ch s' :
  orphaned h own waiter us s -> step verifySignature s ch = Some s' ->
  orphaned h own waiter us s'.
Proof.
  intros (Hh & Hnh & Hown & Hw & Hnoex & Ho & Hwt & Hoo & Hwo & Hlog) H.
  assert (Hb_own : choice_tid ch <> Some own).
  { eapply step_blocked; [exact Ho| |done|exact H]. simpl. by rewrite Hh. }
  assert (Hb_w : choice_tid ch <> Some waiter).
  { eapply step_blocked; [exact Hwt| |done|exact H]. simpl. by rewrite Hh. }
  pose proof (step_next_tid _ _ _ _ H). pose proof (step_next_handle _ _ _ _ H).
  split; [|split; [lia|split; [lia|split; [lia|]]]].
  { destruct (decide (st_handles s' !! h = st_handles s !! h)) as [E|E]; [congruence|].
    destruct (step_handles_frame _ _ _ _ _ H Hnh E) as (tid & t & _ & Ht & Hth).
    by destruct (Hnoex _ _ Ht). }
  split.
  { intros i t Ht Hth. destruct (step_task_handles _ _ _ _ _ _ _ H Ht Hth) as [(t0 & Ht0 & Hth0)|?].
    - by apply (Hnoex _ _ Ht0).
    - lia. }
  split; [by rewrite (step_tasks_frame _ _ _ _ _ H Hown Hb_own)|].
  split; [by rewrite (step_tasks_frame _ _ _ _ _ H Hw Hb_w)|].
  split.
  { destruct (st_outcomes s' !! own) eqn:E; [|done].
    exfalso. apply Hb_own. eapply step_outcomes_new; [exact H|done|by rewrite E]. }
  split.
  { destruct (st_outcomes s' !! waiter) eqn:E; [|done].
    exfalso. apply Hb_w. eapply step_outcomes_new; [exact H|done|by rewrite E]. }
  intros e He Hfe.
  destruct (step_log _ _ _ _ H) as (evs & Hl & Hf). rewrite Hl in He.
  apply elem_of_app in He as [He|He]; [by apply (Hlog e)|].
  rewrite Forall_forall in Hf.
  destruct (Hf e He waiter Hfe); [lia | done].
Qed.
End Runs.

Lemma fetch_failure_prefix_run verifySignature devices :
  run verifySignature (init devices) fetch_failure_prefix = Some (fetch_failure_state devices) /\
  orphaned 0 0 2 [alice] (fetch_failure_state devices).
Proof.
  split; [vm_compute; reflexivity|].
  unfold orphaned, fetch_failure_state; cbn [st_handles st_next_handle st_next_tid st_tasks st_outcomes st_log].
  repeat split; try lia; try reflexivity.
  - intros i t Ht.
    repeat match type of Ht with
    | <[_:=_]> _ !! _ = Some _ => apply lookup_insert_Some in Ht as [[? ?]|[? Ht]]
    end; subst; try done.
  - intros e He. repeat (apply elem_of_cons in He as [He|He]; [subst; done|]).
    by apply elem_of_nil in He.
Qed.

(** C2: when the first call's [getUserDevices] rejects while a second
    call for the same user waits on its promise, the rejection is
    swallowed by the async executor of line 43: the store is untouched by
    the pass, but the promise stays pending forever and neither the first
    call nor the waiting call ever returns or throws, whatever happens
    next. *)
Theorem fetch_failure_leaves_promise_pending verifySignature devices cs s :
  run verifySignature (init devices) (fetch_failure_prefix ++ cs) = Some s ->
  (exists s1, run verifySignature (init devices) fetch_failure_prefix = Some s1 /\
     st_devices s1 = devices) /\
  st_handles s !! 0 = Some Pending /\
  st_outcomes s !! 0 = None /\ st_outcomes s !! 2 = None.
Proof.
  intros Hrun. destruct (fetch_failure_prefix_run verifySignature devices) as (Hs1 & Ho).
  rewrite run_app, Hs1 in Hrun.
  pose proof (run_invariant verifySignature (orphaned 0 0 2 [alice]) _ _ _
                (fun s0 ch s2 => orphaned_step verifySignature 0 0 2 [alice] s0 ch s2) Ho Hrun)
    as (Hh & _ & _ & _ & _ & _ & _ & Hoo & Hwo & _).
  split; [|done]. eexists; split; [exact Hs1|done].
Qed.

(** C4: in the same run, the call waiting (line 40) on the failed pass's
    promise stays suspended at that wait forever and never issues its own
    fetch: the wait is not a rendezvous that always proceeds. *)
Theorem waiter_on_failed_pass_never_fetches verifySignature devices cs s :
  run verifySignature (init devices) (fetch_failure_prefix ++ cs) = Some s ->
  st_tasks s !! 2 = Some (TSync [alice] (SWait [0])) /\
  st_handles s !! 0 = Some Pending /\
  (forall e, e ∈ st_log s -> fetch_of e <> Some 2).
Proof.
  intros Hrun. destruct (fetch_failure_prefix_run verifySignature devices) as (Hs1 & Ho).
  rewrite run_app, Hs1 in Hrun.
  pose proof (run_invariant verifySignature (orphaned 0 0 2 [alice]) _ _ _
                (fun s0 ch s2 => orphaned_step verifySignature 0 0 2 [alice] s0 ch s2) Ho Hrun)
    as (Hh & _ & _ & _ & _ & _ & Hw & _ & _ & Hl).
  eauto.
Qed.

Lemma register_all_notin us h r u :
  u ∉ us -> register_all us h r !! u = r !! u.
Proof.
  revert r. induction us as [|u' us IH]; intros r Hu; simpl; [done|].
  apply not_elem_of_cons in Hu as [Hne Hu]. rewrite IH by done.
  by rewrite lookup_insert_ne by congruence.
Qed.

Lemma register_all_lookup us h r u :
  u ∈ us -> register_all us h r !! u = Some h.
Proof.
  revert r. induction us as [|u' us IH]; intros r Hu; simpl; [by apply elem_of_nil in Hu|].
  destruct (decide (u ∈ us)) as [Hin|Hin]; [by apply IH|].
  apply elem_of_cons in Hu as [->|Hu]; [|done].
  rewrite register_all_notin by done. by rewrite lookup_insert_eq.
Qed.

Lemma existing_promises_elem r us u h :
  r !! u = Some h -> u ∈ us -> h ∈ existing_promises r us.
Proof.
  intros Hr. induction us as [|u' us IH]; intros Hu; simpl; [by apply elem_of_nil in Hu|].
  apply elem_of_cons in Hu as [->|Hu].
  - rewrite Hr. by left.
  - destruct (r !! u'); [right|]; auto.
Qed.



Section Registration.
Variable verifySignature : UserDevice -> string -> string -> bool.

End Registration.

Section Flag.
Variable verifySignature : UserDevice -> string -> string -> bool.

Lemma run_outcomes_keep s cs s' i o :
  run verifySignature s cs = Some s' ->
  st_outcomes s !! i = Some o -> st_outcomes s' !! i = Some o.
Proof.
  intros Hrun Ho.
  apply (run_invariant verifySignature (fun s0 => st_outcomes s0 !! i = Some o) s cs s');
    [|done|done].
  intros s0 ch s1 H0 Hs. by eapply step_outcomes_keep.
Qed.

(** C9: when the store write of line 21 completes, [flagUsersOutdated]
    returns at once: every given user is flagged outdated; with [resync] a
    new [updateUsersDeviceLists] activation for those users is started
    but not awaited, and without it no activation is started; the call's
    outcome is a return, and nothing that happens afterwards (in
    particular a failure of that pass) changes it. *)
Theorem flag_users_outdated_contract s tid us resync s' :
  st_tasks s !! tid = Some (TFlag us resync) -> tid < st_next_tid s ->
  st_outcomes s !! tid = None ->
  step verifySignature s (Resume tid) = Some s' ->
  (forall u, u ∈ us -> u ∈ st_outdated s') /\
  st_outcomes s' !! tid = Some Returned /\
  (resync = true -> exists ph, st_tasks s' !! st_next_tid s = Some (TSync us ph)) /\
  (resync = false -> st_tasks s' = delete tid (st_tasks s) /\
                     st_registry s' = st_registry s /\ st_next_tid s' = st_next_tid s) /\
  (forall cs s'', run verifySignature s' cs = Some s'' -> st_outcomes s'' !! tid = Some Returned).
Proof.
  intros Ht Hlt Ho H.
  assert (Hret : st_outcomes s' !! tid = Some Returned).
  { unfold step in H. rewrite Ht in H. simpl in H. injection H as <-.
    unfold settle_call. destruct resync; [unfold sync_call; case_match|]; simpl;
      rewrite Ho; by rewrite lookup_insert_eq. }
  split; [|split; [done|split; [|split]]].
  - unfold step in H. rewrite Ht in H. simpl in H. injection H as <-.
    intros u Hu. destruct resync; [unfold sync_call; case_match|]; simpl; set_solver.
  - intros ->. unfold step in H. rewrite Ht in H. simpl in H. injection H as <-.
    unfold sync_call. case_match; simpl; rewrite lookup_delete_ne by lia;
      rewrite lookup_insert_eq; eauto.
  - intros ->. unfold step in H. rewrite Ht in H. simpl in H. injection H as <-. simpl. by rewrite delete_delete_eq.
  - intros cs s'' Hrun. by eapply run_outcomes_keep.
Qed.
End Flag.

Lemma ex_continue_ctx c devs t evs :
  ex_continue c devs = (t, evs) ->
  (exists c', task_ctx t = Some c' /\ ex_h c' = ex_h c /\ ex_resp c' = ex_resp c /\
             ex_user c' = ex_user c /\ ex_users c' = ex_users c) /\
  Forall (fun e => is_walk_event e = true) evs.
Proof.
  revert t evs. induction devs as [|[k d] rest IH]; intros t evs Hc; simpl in Hc.
  - simplify_eq/=. split; [eexists; eauto 10|constructor].
  - destruct (precheck _ _ _).
    + destruct (ex_continue c rest) eqn:He. simplify_eq/=.
      destruct (IH _ _ eq_refl) as [? ?]. split; [done|by constructor].
    + simplify_eq/=. split; [eexists; split; [reflexivity|]; done|constructor].
Qed.

Lemma ex_next_user_ctx h resp users ot evs :
  ex_next_user h resp users = (ot, evs) ->
  (forall t, ot = Some t -> exists u devs c', users = (u, devs) :: ex_users c' /\
     task_ctx t = Some c' /\ ex_h c' = h /\ ex_resp c' = resp /\ ex_user c' = u) /\
  Forall (fun e => is_walk_event e = true) evs.
Proof.
  unfold ex_next_user. destruct users as [|[u devs] rest].
  - intros; simplify_eq/=. split; [done|repeat constructor].
  - destruct (ex_continue _ devs) eqn:He. intros; simplify_eq/=.
    apply ex_continue_ctx in He as [(c' & ? & ? & ? & ? & Hus) ?]. simpl in *.
    split; [|done]. intros ? [= <-]. exists u, devs, c'. rewrite Hus. auto.
Qed.

Ltac mem_split :=
  repeat match goal with
  | E : _ ∈ _ ++ _ |- _ => apply elem_of_app in E as [E|E]
  | E : _ ∈ _ :: _ |- _ => apply elem_of_cons in E as [E|E]
  | E : _ ∈ [] |- _ => apply elem_of_nil in E; contradiction
  end.

Ltac walk_contra :=
  match goal with
  | E : ?e ∈ ?evs, F : Forall (fun e => is_walk_event e = true) ?evs |- _ =>
      eapply Forall_forall in E; [|exact F]; discriminate
  end.

Ltac tasks_split Hi :=
  repeat match type of Hi with
  | <[_:=_]> _ !! _ = Some _ => apply lookup_insert_Some in Hi as [[? Hi]|[? Hi]]
  | delete _ _ !! _ = Some _ => apply lookup_delete_Some in Hi as [? Hi]
  end.

Section Frame_writes.
Variable verifySignature : UserDevice -> string -> string -> bool.
Variable devices0 : gmap string (list UserDevice).

Lemma writes_from_response_init : writes_from_response devices0 (init devices0).
Proof.
  split; [|split].
  - intros ??? E. by apply elem_of_nil in E.
  - intros ??? E. simpl in E. by rewrite lookup_empty in E.
  - done.
Qed.

Lemma writes_from_response_step s ch s' :
  writes_from_response devices0 s -> step verifySignature s ch = Some s' -> writes_from_response devices0 s'.
Proof.
  intros (Ha & Hb & Hc) H.
  step_cases H; cbn [ex_resp ex_users] in *;
    repeat match goal with
    | E : ex_continue _ _ = _ |- _ =>
        apply ex_continue_ctx in E as [(?c' & ?Hctx & ?Eh & ?Er & ?Eu & ?Eus) ?]
    | E : ex_next_user _ _ _ = _ |- _ => apply ex_next_user_ctx in E as [E ?];
        try (specialize (E _ eq_refl) as (?u & ?devs & ?c' & ?Eus & ?Hctx & ?Eh & ?Er & ?Eu))
    end.
  all: unfold writes_from_response; cbn [st_devices st_log st_tasks].
  all: split; [|split].
  all: lazymatch goal with
    | |- forall h u ds, EvSetDevices h u ds ∈ _ -> _ =>
        let h0 := fresh "h" in let u0 := fresh "u" in let ds0 := fresh "ds" in
        let He := fresh "He" in
        intros h0 u0 ds0 He;
        repeat match goal with
        | E : _ ∈ _ ++ _ |- _ => apply elem_of_app in E as [E|E]
        | E : _ ∈ _ :: _ |- _ => apply elem_of_cons in E as [E|E]
        | E : _ ∈ [] |- _ => apply elem_of_nil in E; contradiction
        end;
        first
        [ discriminate
        | destruct (Ha _ _ _ He) as (resp & ? & ?); exists resp; split; [set_solver|done]
        | eapply Forall_forall in He; [|eassumption]; discriminate
        | simplify_eq;
          match goal with Ht0 : st_tasks _ !! _ = Some (TExWrite ?c) |- _ =>
            destruct (Hb _ _ _ Ht0 eq_refl) as [? (pre & d & Hr)];
            exists (ex_resp c); split; [set_solver|rewrite Hr, map_app; simpl; set_solver] end
        | idtac ]
    | |- forall u, (forall h ds, EvSetDevices h u ds ∉ _) -> _ =>
        let u0 := fresh "u" in let Hu := fresh "Hu" in intros u0 Hu;
        first
        [ apply Hc; intros h1 ds1 E1; apply (Hu h1 ds1); set_solver
        | match goal with |- <[?k := ?v]> _ !! _ = _ =>
            destruct (decide (u0 = k)) as [->|Hne];
            [exfalso; eapply Hu; apply elem_of_app; left; apply elem_of_app; right;
             apply list_elem_of_singleton; reflexivity
            | rewrite lookup_insert_ne by congruence;
              apply Hc; intros h1 ds1 E1; apply (Hu h1 ds1); set_solver] end
        | idtac ]
    | |- forall i t c, _ !! i = Some t -> task_ctx t = Some c -> _ =>
        let i0 := fresh "i" in let t0 := fresh "t" in let c0 := fresh "c" in
        let Hi := fresh "Hi" in let Ht := fresh "Ht" in
        intros i0 t0 c0 Hi Ht;
        repeat match type of Hi with
        | <[_:=_]> _ !! _ = Some _ => apply lookup_insert_Some in Hi as [[? Hi]|[? Hi]]
        | delete _ _ !! _ = Some _ => apply lookup_delete_Some in Hi as [? Hi]
        end; try subst t0;
        first
        [ discriminate
        | destruct (Hb _ _ _ Hi Ht) as [? ?]; split; [set_solver|done]
        | idtac ]
    | _ => idtac
    end.
  all: try match goal with
       | Hctx : task_ctx ?t = Some ?c', Ht : task_ctx ?t = Some ?c0 |- _ =>
           rewrite Hctx in Ht; injection Ht as <-
       end.
  all: try match goal with Ht : task_ctx _ = Some _ |- _ => simpl in Ht; injection Ht as <- end.
  all: repeat match goal with
       | E : ex_h ?c = _ |- _ => rewrite E; clear E
       | E : ex_resp ?c = _ |- _ => rewrite E; clear E
       | E : ex_user ?c = _ |- _ => rewrite E; clear E
       | E : ex_users ?c = _ |- context [ex_users ?c] => rewrite E; clear E
       end.
  all: first
    [ match goal with Ht0 : st_tasks _ !! _ = Some (TExWrite ?c) |- _ =>
        destruct (Hb _ _ _ Ht0 eq_refl) as [? (pre & d & Hr)];
        split; [set_solver|];
        match goal with E : ex_users c = (?u, ?devs) :: _ |- _ =>
          exists (pre ++ [(ex_user c, d)]), devs; rewrite Hr, E, <-app_assoc; reflexivity end end
    | match goal with Ht0 : st_tasks _ !! _ = Some ?t1 |- _ =>
        destruct (Hb _ _ _ Ht0 eq_refl) as [? ?]; split; [set_solver|done] end
    | match goal with E : ?r = (?u, ?devs) :: _ |- _ =>
        split; [set_solver|exists [], devs; exact E] end
    | idtac ].
Qed.

Lemma fetch_once_init : fetch_once (init devices0).
Proof.
  split; [|split; [|split]]; simpl.
  - intros ??? E. by rewrite lookup_empty in E.
  - intros ?? E. by apply elem_of_nil in E.
  - intros ??? E. by rewrite lookup_empty in E.
  - intros ??? E. by apply elem_of_nil in E.
Qed.

Lemma fetch_once_step s ch s' :
  fetch_once s -> step verifySignature s ch = Some s' -> fetch_once s'.
Proof.
  intros (Hd & He1 & He2 & Hf) H.
  step_cases H; cbn [ex_resp ex_users] in *;
    repeat match goal with
    | E : ex_continue _ _ = _ |- _ =>
        let E' := fresh in pose proof E as E';
        apply ex_continue_handle in E as [?Hth _];
        apply ex_continue_ctx in E' as [(?c' & ?Hctx & _) ?]
    | E : ex_next_user _ _ _ = _ |- _ =>
        let E' := fresh in
        pose proof E as E'; apply ex_next_user_handle in E as [E _];
        apply ex_next_user_ctx in E' as [E' ?];
        try (specialize (E _ eq_refl) as ?Hth);
        try (specialize (E' _ eq_refl) as (? & ? & ?c' & _ & ?Hctx & _))
    end;
    cbn [ex_h push_validated set_devices] in *.
  all: unfold fetch_once; cbn [st_next_handle st_log st_tasks].
  all: split; [|split; [|split]].
  all: lazymatch goal with
    | |- forall h r, EvFetchOk h r ∈ _ -> _ =>
        let h0 := fresh "h" in let r0 := fresh "r" in let E := fresh "E" in
        intros h0 r0 E; mem_split;
        first
        [ discriminate
        | walk_contra
        | apply He1 in E; lia
        | simplify_eq;
          match goal with T : st_tasks _ !! _ = Some _ |- _ =>
            eapply He2 in T; [|reflexivity]; lia end
        | idtac ]
    | |- forall h r1 r2, EvFetchOk h r1 ∈ _ -> _ =>
        let h0 := fresh "h" in let r1 := fresh "r" in let r2 := fresh "r" in
        let E1 := fresh "E" in let E2 := fresh "E" in
        intros h0 r1 r2 E1 E2; mem_split;
        first
        [ discriminate
        | walk_contra
        | eapply Hf; eassumption
        | simplify_eq; reflexivity
        | simplify_eq;
          match goal with T : st_tasks _ !! _ = Some (TExFetch _ _) |- _ =>
            destruct (Hd _ _ _ T) as [Hn _]; exfalso; eapply Hn; eassumption end
        | idtac ]
    | |- forall i t h, _ !! i = Some t -> task_handle t = Some h -> _ =>
        let i0 := fresh "i" in let t0 := fresh "t" in let h0 := fresh "h" in
        let Hi := fresh "Hi" in let Ht := fresh "Ht" in
        intros i0 t0 h0 Hi Ht; tasks_split Hi; try subst t0;
        first
        [ discriminate
        | eapply He2 in Hi; [|eassumption]; lia
        | simpl in Ht; simplify_eq; lia
        | (rewrite Hth in Ht || simpl in Ht); simplify_eq;
          match goal with T : st_tasks _ !! _ = Some _ |- _ =>
            eapply He2 in T; [|reflexivity]; lia end
        | idtac ]
    | |- forall i h us, _ !! i = Some (TExFetch h us) -> _ =>
        let i0 := fresh "i" in let h0 := fresh "h" in let us0 := fresh "us" in
        let Hi := fresh "Hi" in
        intros i0 h0 us0 Hi; tasks_split Hi; simplify_eq;
        try (destruct (Hd _ _ _ Hi) as [Hn Hu]);
        try (exfalso; match goal with Hc : task_ctx (TExFetch _ _) = Some _ |- _ =>
               discriminate Hc end);
        (split;
        [ let r := fresh "r" in let E := fresh "E" in
          intros r E; mem_split;
          first
          [ discriminate
          | walk_contra
          | apply He1 in E; lia
          | eapply Hn; eassumption
          | simplify_eq;
            match goal with T : st_tasks _ !! _ = Some (TExFetch _ _) |- _ =>
              specialize (Hu _ _ T eq_refl); congruence end
          | idtac ]
        | let j := fresh "j" in let t := fresh "t" in
          let Hj := fresh "Hj" in let Ht := fresh "Ht" in
          intros j t Hj Ht; tasks_split Hj; try subst t;
          first
          [ discriminate
          | simpl in Ht; discriminate
          | eapply Hu; eassumption
          | exfalso; eapply He2 in Hj; [|exact Ht]; lia
          | simpl in Ht; simplify_eq; exfalso; eapply He2 in Hi; [|reflexivity]; lia
          | simpl in Ht; simplify_eq; congruence
          | (rewrite Hth in Ht || simpl in Ht); simplify_eq;
            match goal with T : st_tasks _ !! _ = Some _ |- _ =>
              apply (Hu _ _ T); simpl; congruence end
          | idtac ] ])
    | _ => idtac
    end.
Qed.

(** C10: in every run, a write of a user's device list by pass [h] is for
    a key of that pass's fetch response, after the response arrived; a
    user that no response names keeps the device list it had at the
    start. *)
Theorem writes_only_for_response_keys cs s :
  run verifySignature (init devices0) cs = Some s ->
  (forall h u ds, EvSetDevices h u ds ∈ st_log s ->
     exists resp, EvFetchOk h resp ∈ st_log s) /\
  (forall h u ds resp, EvSetDevices h u ds ∈ st_log s ->
     EvFetchOk h resp ∈ st_log s -> u ∈ map fst resp) /\
  (forall u, (forall h resp, EvFetchOk h resp ∈ st_log s -> u ∉ map fst resp) ->
     st_devices s !! u = devices0 !! u).
Proof.
  intros Hrun.
  destruct (run_invariant verifySignature _ _ _ _ writes_from_response_step
              writes_from_response_init Hrun) as (Ha & _ & Hc).
  destruct (run_invariant verifySignature _ _ _ _ fetch_once_step
              fetch_once_init Hrun) as (_ & _ & _ & Hf).
  split; [|split].
  - intros h u ds He. destruct (Ha _ _ _ He) as (resp & ? & _). eauto.
  - intros h u ds resp He Hr. destruct (Ha _ _ _ He) as (resp' & Hr' & Hu).
    by rewrite (Hf _ _ _ Hr Hr').
  - intros u Hn. apply Hc. intros h ds He. destruct (Ha _ _ _ He) as (resp & Hr & Hu).
    by destruct (Hn _ _ Hr Hu).
Qed.
End Frame_writes.

Lemma map_fst_elem {A B} (a : A) (b : B) (l : list (A * B)) :
  (a, b) ∈ l -> a ∈ map fst l.
Proof.
  induction l as [|[a' b'] l IH]; intros H; simpl; [by apply elem_of_nil in H|].
  apply elem_of_cons in H as [[= -> ->]|H]; [left|right; auto].
Qed.

Section Solo.
Variable verifySignature : UserDevice -> string -> string -> bool.

Lemma run_replicate_S s ch n :
  run verifySignature s (replicate (S n) ch) =
  match step verifySignature s ch with
  | Some s1 => run verifySignature s1 (replicate n ch)
  | None => None
  end.
Proof. done. Qed.

(** The inner loop of one user, run with no other activation
    interleaving: it reaches the commit of line 88 with the claims that
    [validate_user] keeps against the store as it is. *)
Lemma inner_solo devs c s tid t0 evs0 :
  ex_continue c devs = (t0, evs0) -> st_tasks s !! tid = Some t0 ->
  exists n s' c',
    run verifySignature s (replicate n (Resume tid)) = Some s' /\
    st_tasks s' = <[tid := TExWrite c']> (st_tasks s) /\
    st_devices s' = st_devices s /\ st_handles s' = st_handles s /\
    ex_h c' = ex_h c /\ ex_resp c' = ex_resp c /\ ex_users c' = ex_users c /\
    ex_user c' = ex_user c /\
    ex_validated c' = ex_validated c ++
      fst (validate_user verifySignature (stored (st_devices s) (ex_user c)) (ex_user c) devs).
Proof.
  revert c s t0 evs0. induction devs as [|[k d] rest IH]; intros c s t0 evs0 Hc Ht; simpl in Hc.
  - simplify_eq. exists 0, s, c. simpl. rewrite insert_id by done. rewrite app_nil_r. auto 10.
  - simpl. destruct (precheck (ex_user c) k d) as [r|ed] eqn:Hp.
    + destruct (ex_continue c rest) as [t1 evs1] eqn:He. simplify_eq.
      destruct (IH _ _ _ _ He Ht) as (n & s' & c' & Hrun & ? & ? & ? & ? & ? & ? & ? & Hv).
      exists n, s', c'. rewrite Hv. unfold device_verdict. rewrite Hp.
      destruct (validate_user _ _ _ rest). auto 10.
    + simplify_eq. unfold device_verdict. rewrite Hp.
      destruct (validate_user verifySignature (stored (st_devices s) (ex_user c)) (ex_user c) rest)
        as [vs ws] eqn:Hvu.
      destruct (pin_ok k ed (stored (st_devices s) (ex_user c))) eqn:Hpin; simpl.
      * destruct (get_signature (ex_user c) k d) as [sig|] eqn:Hsig.
        -- destruct (verifySignature d ed sig) eqn:Hver.
           ++ (* verified: pushed *)
              destruct (ex_continue (push_validated (set_devices c rest) d) rest) as [t1 evs1] eqn:He.
              set (s1 := with_tasks (insert tid (TExVerify (set_devices c rest) k d ed sig)) s).
              set (s2 := with_log evs1 (with_tasks (insert tid t1) s1)).
              assert (Hs2 : st_tasks s2 !! tid = Some t1) by (simpl; by rewrite lookup_insert_eq).
              destruct (IH _ _ _ _ He Hs2) as (n & s' & c' & Hrun & Htk & Hd & Hh & ? & ? & ? & ? & Hv).
              exists (S (S n)), s', c'.
              rewrite !run_replicate_S. simpl step. rewrite Ht. simpl.
              rewrite Hpin, Hsig. simpl. rewrite lookup_insert_eq. simpl. rewrite Hver.
              simpl. rewrite He. fold s1 s2. rewrite Hrun.
              split; [done|]. rewrite Htk. simpl. rewrite !insert_insert_eq.
              simpl in *. rewrite Hd, Hh, Hv, Hvu. simpl. rewrite <-app_assoc. auto 10.
           ++ destruct (ex_continue (set_devices c rest) rest) as [t1 evs1] eqn:He.
              set (s1 := with_tasks (insert tid (TExVerify (set_devices c rest) k d ed sig)) s).
              set (s2 := with_log (EvWarn InvalidSignature (ex_user c) k :: evs1)
                           (with_tasks (insert tid t1) s1)).
              assert (Hs2 : st_tasks s2 !! tid = Some t1) by (simpl; by rewrite lookup_insert_eq).
              destruct (IH _ _ _ _ He Hs2) as (n & s' & c' & Hrun & Htk & Hd & Hh & ? & ? & ? & ? & Hv).
              exists (S (S n)), s', c'.
              rewrite !run_replicate_S. simpl step. rewrite Ht. simpl.
              rewrite Hpin, Hsig. simpl. rewrite lookup_insert_eq. simpl. rewrite Hver.
              simpl. rewrite He. fold s1 s2. rewrite Hrun.
              split; [done|]. rewrite Htk. simpl. rewrite !insert_insert_eq.
              simpl in *. rewrite Hd, Hh, Hv, Hvu. auto 10.
        -- destruct (ex_continue (set_devices c rest) rest) as [t1 evs1] eqn:He.
           set (s2 := with_log (EvWarn MissingSignature (ex_user c) k :: evs1)
                        (with_tasks (insert tid t1) s)).
           assert (Hs2 : st_tasks s2 !! tid = Some t1) by (simpl; by rewrite lookup_insert_eq).
           destruct (IH _ _ _ _ He Hs2) as (n & s' & c' & Hrun & Htk & Hd & Hh & ? & ? & ? & ? & Hv).
           exists (S n), s', c'.
           rewrite !run_replicate_S. simpl step. rewrite Ht. simpl.
           rewrite Hpin, Hsig. simpl. rewrite He. fold s2. rewrite Hrun.
           split; [done|]. rewrite Htk. simpl. rewrite !insert_insert_eq.
           simpl in *. rewrite Hd, Hh, Hv, Hvu. auto 10.
      * destruct (ex_continue (set_devices c rest) rest) as [t1 evs1] eqn:He.
        set (s2 := with_log (EvWarn Compromised (ex_user c) k :: evs1)
                     (with_tasks (insert tid t1) s)).
        assert (Hs2 : st_tasks s2 !! tid = Some t1) by (simpl; by rewrite lookup_insert_eq).
        destruct (IH _ _ _ _ He Hs2) as (n & s' & c' & Hrun & Htk & Hd & Hh & ? & ? & ? & ? & Hv).
        exists (S n), s', c'.
        rewrite !run_replicate_S. simpl step. rewrite Ht. simpl.
        rewrite Hpin. simpl. rewrite He. fold s2. rewrite Hrun.
        split; [done|]. rewrite Htk. simpl. rewrite !insert_insert_eq.
        simpl in *. rewrite Hd, Hh, Hv, Hvu. auto 10.
Qed.

(** The outer loop from the head of its next iteration to [resolve()]:
    the users left are committed in order, as [commit_pass] does. *)
Lemma outer_solo users s tid h resp :
  exists n s',
    run verifySignature (ex_install tid h (ex_next_user h resp users) s)
      (replicate n (Resume tid)) = Some s' /\
    st_devices s' = commit_pass verifySignature (st_devices s) users /\
    st_tasks s' = delete tid (st_tasks s) /\
    st_handles s' = settle h Fulfilled (st_handles s).
Proof.
  revert s. induction users as [|[u devs] rest IH]; intros s.
  - exists 0. eexists. split; [reflexivity|]. done.
  - simpl ex_next_user.
    destruct (ex_continue (mkExCtx h resp rest u [] []) devs) as [t evs] eqn:He.
    simpl ex_install.
    set (s1 := with_log evs (with_tasks (insert tid t) s)).
    assert (Hs1 : st_tasks s1 !! tid = Some t) by (simpl; by rewrite lookup_insert_eq).
    destruct (inner_solo _ _ _ _ _ _ He Hs1)
      as (n1 & s2 & c' & Hrun1 & Htk & Hd & Hh & Eh & Er & Eus & Eu & Hv).
    simpl in Eh, Er, Eus, Eu, Hv.
    set (s3 := mkState (<[ex_user c' := ex_validated c']> (st_devices s2)) (st_outdated s2)
                 (st_registry s2) (st_handles s2) (st_next_handle s2) (st_tasks s2)
                 (st_next_tid s2) (st_outcomes s2)
                 (st_log s2 ++ [EvSetDevices (ex_h c') (ex_user c') (ex_validated c')])).
    destruct (IH s3) as (n2 & s' & Hrun2 & Hd' & Htk' & Hh').
    exists (n1 + S n2), s'. split.
    + rewrite replicate_add, run_app, Hrun1, run_replicate_S. simpl step.
      rewrite Htk, lookup_insert_eq. simpl resume. fold s3. rewrite Eh, Er, Eus.
      exact Hrun2.
    + rewrite Hd', Htk', Hh'. simpl. rewrite Htk, Hd, Hh, Eu, Hv. simpl.
      rewrite delete_insert_eq. simpl. rewrite delete_insert_eq. auto.
Qed.

(** A pass whose fetch succeeds, run to [resolve()] with no other
    activation interleaving. *)
Lemma pass_solo s tid h us resp :
  st_tasks s !! tid = Some (TExFetch h us) ->
  exists n s',
    run verifySignature s (FetchDone tid (FetchOk resp) :: replicate n (Resume tid)) = Some s' /\
    st_devices s' = commit_pass verifySignature (st_devices s) resp /\
    st_tasks s' = delete tid (st_tasks s) /\
    st_handles s' = settle h Fulfilled (st_handles s).
Proof.
  intros Ht.
  destruct (outer_solo resp (with_log [EvFetchOk h resp] s) tid h resp)
    as (n & s' & Hrun & Hd & Htk & Hh).
  exists n, s'. simpl. rewrite Ht. simpl. split; [exact Hrun|]. done.
Qed.
End Solo.

Lemma commit_pass_notin verifySignature devices resp u :
  u ∉ map fst resp -> commit_pass verifySignature devices resp !! u = devices !! u.
Proof.
  revert devices. induction resp as [|[u' devs] rest IH]; intros devices Hu; simpl; [done|].
  simpl in Hu. apply not_elem_of_cons in Hu as [Hne Hu].
  rewrite IH by done. by rewrite lookup_insert_ne by congruence.
Qed.

Lemma commit_pass_in verifySignature devices resp u devs :
  NoDup (map fst resp) -> (u, devs) ∈ resp ->
  commit_pass verifySignature devices resp !! u =
    Some (fst (validate_user verifySignature (stored devices u) u devs)).
Proof.
  revert devices. induction resp as [|[u' devs'] rest IH]; intros devices Hnd Hin; simpl;
    [by apply elem_of_nil in Hin|].
  simpl in Hnd. apply NoDup_cons in Hnd as [Hnotin Hnd].
  apply elem_of_cons in Hin as [[= -> ->]|Hin].
  - rewrite commit_pass_notin by done. by rewrite lookup_insert_eq.
  - assert (u <> u') by (intros ->; by apply Hnotin, (map_fst_elem _ devs)).
    rewrite IH by done. unfold stored. by rewrite lookup_insert_ne by congruence.
Qed.

Lemma validate_user_keeps verifySignature cur u devs k dev :
  device_verdict verifySignature cur u k dev = None -> (k, dev) ∈ devs ->
  dev ∈ fst (validate_user verifySignature cur u devs).
Proof.
  intros Hv. induction devs as [|[k' d'] rest IH]; intros Hin; [by apply elem_of_nil in Hin|].
  simpl. destruct (validate_user verifySignature cur u rest) as [vs ws] eqn:E. simpl in IH.
  apply elem_of_cons in Hin as [[= -> ->]|Hin].
  - rewrite Hv. simpl. by left.
  - destruct (device_verdict _ _ _ _ d'); simpl; [|right]; auto.
Qed.

(** C1 (counterexample): the pin lasts only while the device stays in
    the store.  Pass 0 stores D1 with key E1; pass 1 presents D1 with key
    E2, which is rejected, and commits an empty list for [alice]; pass 2
    presents D1 with E2 again, finds nothing stored and commits it. *)
Lemma key_repinned_after_rejection :
  match run toy_verify (init ∅) repin_schedule with
  | Some s =>
      st_log s !! 3 = Some (EvSetDevices 0 alice [alice_device "D1" "E1"]) /\
      st_log s !! 8 = Some (EvWarn Compromised alice "D1") /\
      st_log s !! 9 = Some (EvSetDevices 1 alice []) /\
      st_log s !! 14 = Some (EvSetDevices 2 alice [alice_device "D1" "E2"]) /\
      st_devices s !! alice = Some [alice_device "D1" "E2"]
  | None => False
  end.
Proof. vm_compute. repeat split. Qed.

(** C1: a claim whose Ed25519 key differs from the key of the device
    stored under its device id when the store is read (lines 62-71) is
    rejected with a "compromised" warning, whatever its signature and
    whatever the verifier: the executor moves on to the next device, the
    claim is not added to the validated list and the store is unchanged. *)
Theorem changed_key_rejected_at_check verifySignature s tid c k dev ed existing K :
  st_tasks s !! tid = Some (TExRead c k dev ed) ->
  find (fun d => String.eqb (device_id d) k) (stored (st_devices s) (ex_user c)) = Some existing ->
  get (keys existing) (key_name DeviceKeyAlgorithm_Ed25119 k) = Some K -> K <> ed ->
  exists s',
    step verifySignature s (Resume tid) = Some s' /\
    st_tasks s' = <[tid := fst (ex_continue c (ex_devices c))]> (st_tasks s) /\
    st_log s' = st_log s ++ EvWarn Compromised (ex_user c) k :: snd (ex_continue c (ex_devices c)) /\
    st_devices s' = st_devices s.
Proof.
  intros Ht Hf Hk Hne. simpl. rewrite Ht. simpl.
  assert (Hpin : pin_ok k ed (stored (st_devices s) (ex_user c)) = false).
  { unfold pin_ok. rewrite Hf, Hk. by apply String.eqb_neq. }
  rewrite Hpin. simpl. destruct (ex_continue c (ex_devices c)) as [t' evs]. simpl.
  eexists. split; [reflexivity|]. done.
Qed.

(** C3 (counterexample): with overlapping passes the store is not the
    validated set of the pass that completed last: pass 1 commits [D1]
    for [alice] and then resolves, but the concurrent pass 2, whose
    response lists no device for [alice], commits [] afterwards. *)
Lemma overlapping_pass_overwrites_commit :
  match run toy_verify (init ∅) overlap_schedule with
  | Some s =>
      st_log s !! 9 = Some (EvSetDevices 1 alice [alice_device "D1" "E1"]) /\
      st_log s !! 11 = Some (EvSetDevices 2 alice []) /\
      st_handles s !! 1 = Some Fulfilled /\
      st_outcomes s !! 2 = Some Returned /\
      st_devices s !! alice = Some []
  | None => False
  end.
Proof. vm_compute. repeat split. Qed.

(** C3: when no other activation interleaves with a pass, the commit
    replaces each response user's device list by exactly the devices that
    passed every check against the store as it was before the pass (a
    stored device absent from the response is dropped), users outside the
    response keep their list, and the pass's promise is fulfilled. *)
Theorem solo_pass_replaces_device_lists verifySignature s tid h us resp :
  st_tasks s !! tid = Some (TExFetch h us) -> NoDup (map fst resp) ->
  exists n s',
    run verifySignature s (FetchDone tid (FetchOk resp) :: replicate n (Resume tid)) = Some s' /\
    st_tasks s' !! tid = None /\
    st_handles s' = settle h Fulfilled (st_handles s) /\
    (forall u devs, (u, devs) ∈ resp ->
       st_devices s' !! u =
         Some (fst (validate_user verifySignature (stored (st_devices s) u) u devs))) /\
    (forall u, u ∉ map fst resp -> st_devices s' !! u = st_devices s !! u).
Proof.
  intros Ht Hnd. destruct (pass_solo verifySignature s tid h us resp Ht)
    as (n & s' & Hrun & Hd & Htk & Hh).
  exists n, s'. split; [done|]. split; [by rewrite Htk, lookup_delete_eq|].
  split; [done|]. rewrite Hd. split.
  - intros u devs Hin. by apply commit_pass_in.
  - intros u Hu. by apply commit_pass_notin.
Qed.

(** C8 (counterexample): trust on first use is not guaranteed for
    overlapping passes. Nothing is stored for [alice] when passes 1 and 2
    start; pass 1 commits D1 with key E1 before pass 2 reads the store
    (line 62), so pass 2's D1 with key E2, which passes the identity and
    key checks and carries a signature the verifier accepts, is rejected
    as compromised and dropped. *)
Lemma first_use_lost_to_overlap :
  precheck alice "D1" (alice_device "D1" "E2") = inr "E2" /\
  get_signature alice "D1" (alice_device "D1" "E2") = Some "sig-E2" /\
  toy_verify (alice_device "D1" "E2") "E2" "sig-E2" = true /\
  match run toy_verify (init ∅) tofu_prefix with
  | Some s1 =>
      st_devices s1 !! alice = None /\
      st_tasks s1 !! 4 = Some (TExFetch 1 [alice]) /\
      st_tasks s1 !! 5 = Some (TExFetch 2 [alice]) /\
      match run toy_verify s1 tofu_suffix with
      | Some s2 =>
          st_log s2 !! 9 = Some (EvSetDevices 1 alice [alice_device "D1" "E1"]) /\
          st_log s2 !! 11 = Some (EvFetchOk 2 [(alice, [("D1", alice_device "D1" "E2")])]) /\
          st_log s2 !! 12 = Some (EvWarn Compromised alice "D1") /\
          st_log s2 !! 13 = Some (EvSetDevices 2 alice []) /\
          st_devices s2 !! alice = Some []
      | None => False
      end
  | None => False
  end.
Proof. vm_compute. repeat split. Qed.

(** C8: for a pass that no other pass interleaves with, a claim for a
    device id with no device stored when the response arrives, passing
    the identity and key checks and carrying a signature the verifier
    accepts for its own Ed25519 key, is accepted whatever that key is, and
    the pass commits it. *)
Theorem first_use_claim_committed verifySignature s tid h us resp u devs k dev ed sig :
  st_tasks s !! tid = Some (TExFetch h us) -> NoDup (map fst resp) ->
  (u, devs) ∈ resp -> (k, dev) ∈ devs ->
  precheck u k dev = inr ed ->
  find (fun d => String.eqb (device_id d) k) (stored (st_devices s) u) = None ->
  get_signature u k dev = Some sig -> verifySignature dev ed sig = true ->
  device_verdict verifySignature (stored (st_devices s) u) u k dev = None /\
  exists n s' ds,
    run verifySignature s (FetchDone tid (FetchOk resp) :: replicate n (Resume tid)) = Some s' /\
    st_devices s' !! u = Some ds /\ dev ∈ ds.
Proof.
  intros Ht Hnd Hu Hk Hp Hf Hs Hv.
  assert (Hvd : device_verdict verifySignature (stored (st_devices s) u) u k dev = None).
  { unfold device_verdict, pin_ok. rewrite Hp, Hf, Hs. simpl. by rewrite Hv. }
  split; [done|].
  destruct (pass_solo verifySignature s tid h us resp Ht) as (n & s' & Hrun & Hd & _ & _).
  exists n, s', (fst (validate_user verifySignature (stored (st_devices s) u) u devs)).
  split; [done|]. split.
  - rewrite Hd. by apply commit_pass_in.
  - by eapply validate_user_keeps.
Qed.

Lemma precheck_inr u k d ed :
  precheck u k d = inr ed ->
  user_id d = u /\ device_id d = k /\
  get (keys d) (key_name DeviceKeyAlgorithm_Ed25119 k) = Some ed /\
  truthy (get (keys d) (key_name DeviceKeyAlgorithm_Ed25119 k)) = true /\
  truthy (get (keys d) (key_name DeviceKeyAlgorithm_Curve25519 k)) = true.
Proof.
  unfold precheck.
  destruct (String.eqb (user_id d) u) eqn:Eu, (String.eqb (device_id d) k) eqn:Ek; simpl; try done.
  apply String.eqb_eq in Eu, Ek.
  destruct (truthy (get (keys d) (key_name DeviceKeyAlgorithm_Ed25119 k))) eqn:E1,
    (truthy (get (keys d) (key_name DeviceKeyAlgorithm_Curve25519 k))) eqn:E2; simpl; try done.
  destruct (get (keys d) (key_name DeviceKeyAlgorithm_Ed25119 k)); [|done].
  intros [= ->]. auto.
Qed.

Lemma precheck_inr_passes u k d ed : precheck u k d = inr ed -> passes_prechecks u d.
Proof. intros H. destruct (precheck_inr _ _ _ _ H) as (_ & <- & _). by exists ed. Qed.

Lemma ex_continue_shape c devs t evs :
  ex_continue c devs = (t, evs) -> continue_shape c t.
Proof.
  revert t evs. induction devs as [|[k d] rest IH]; intros t evs Hc; simpl in Hc.
  - simplify_eq/=. auto.
  - destruct (precheck (ex_user c) k d) eqn:Hp.
    + destruct (ex_continue c rest) eqn:He. simplify_eq/=. eauto.
    + simplify_eq/=. auto.
Qed.

Lemma ex_next_user_shape h resp users t evs :
  ex_next_user h resp users = (Some t, evs) ->
  exists u devs rest, users = (u, devs) :: rest /\
    continue_shape (mkExCtx h resp rest u [] []) t.
Proof.
  unfold ex_next_user. destruct users as [|[u devs] rest]; [done|].
  destruct (ex_continue _ devs) eqn:He. intros; simplify_eq/=.
  apply ex_continue_shape in He. eauto.
Qed.

Section Checked.
Variable verifySignature : UserDevice -> string -> string -> bool.

Lemma checked_writes_init devices0 : checked_writes (init devices0).
Proof.
  split; [|split; [|split]]; simpl.
  - intros ??? E. by rewrite lookup_empty in E.
  - intros ????? E. by rewrite lookup_empty in E.
  - intros ?????? E. by rewrite lookup_empty in E.
  - intros ??? E. by apply elem_of_nil in E.
Qed.

Lemma checked_writes_step s ch s' :
  checked_writes s -> step verifySignature s ch = Some s' -> checked_writes s'.
Proof.
  intros (H1 & H2 & H3 & H4) H.
  step_cases H; cbn [ex_resp ex_users] in *;
    repeat match goal with
    | E : ex_continue _ _ = _ |- _ =>
        pose proof (ex_continue_ctx _ _ _ _ E) as [_ ?];
        apply ex_continue_shape in E
    | E : ex_next_user _ _ _ = (Some _, _) |- _ =>
        pose proof (ex_next_user_ctx _ _ _ _ _ E) as [_ ?];
        apply ex_next_user_shape in E as (?u & ?devs & ?rest & ?Eus & E)
    | E : ex_next_user _ _ _ = (None, _) |- _ =>
        apply ex_next_user_ctx in E as [_ ?]
    end.
  all: unfold checked_writes; cbn [st_log st_tasks].
  all: split; [|split; [|split]].
  all: lazymatch goal with
    | |- forall i t c, _ !! i = Some t -> task_ctx t = Some c -> _ =>
        let i0 := fresh "i" in let t0 := fresh "t" in let c0 := fresh "c" in
        let Hi := fresh "Hi" in let Ht := fresh "Ht" in
        intros i0 t0 c0 Hi Ht; tasks_split Hi; try subst t0;
        first [ discriminate | (eapply H1; eassumption) | idtac ]
    | |- forall i c k d ed, _ !! i = Some (TExRead c k d ed) -> _ =>
        let Hi := fresh "Hi" in
        intros ????? Hi; tasks_split Hi; simplify_eq;
        first [ (eapply H2; eassumption) | idtac ]
    | |- forall i c k d ed sig, _ !! i = Some (TExVerify c k d ed sig) -> _ =>
        let Hi := fresh "Hi" in
        intros ?????? Hi; tasks_split Hi; simplify_eq;
        first [ (eapply H3; eassumption) | (eapply H2; eassumption) | idtac ]
    | |- forall h u ds, EvSetDevices h u ds ∈ _ -> _ =>
        let He := fresh "He" in
        intros ??? He; mem_split;
        first [ discriminate | (eapply H4; eassumption) | walk_contra | idtac ]
    end.
  all: try match goal with
       | Hs : continue_shape _ ?t, Ht : task_ctx ?t = Some _ |- _ =>
           is_var t; destruct t; simpl in Ht; try discriminate; injection Ht as <-
       end.
  all: try match goal with
       | Hs : continue_shape _ _ |- _ => simpl in Hs; try contradiction; decompose [and] Hs; clear Hs
       end.
  all: cbn [push_validated ex_user ex_validated] in *.
  all: repeat match goal with
       | E : ex_user _ = _ |- _ => rewrite E; clear E
       | E : ex_validated _ = _ |- _ => rewrite E; clear E
       end.
  all: cbn [push_validated ex_user ex_validated] in *.
  all: try assumption.
  all: try (by eapply H1; [eassumption|reflexivity]).
  all: try (by apply Forall_nil).
  all: try (apply Forall_app; split; [by eapply H1; [eassumption|reflexivity]
         | apply Forall_singleton; eapply precheck_inr_passes; eapply H3; eassumption]).
  all: match goal with
       | He : EvSetDevices _ _ _ = EvSetDevices _ _ _ |- _ =>
           injection He as -> -> ->; by eapply H1; [eassumption|reflexivity]
       end.
Qed.
End Checked.

Section Checked_run.
Variable verifySignature : UserDevice -> string -> string -> bool.

Lemma checked_writes_run devices0 cs s h u ds d :
  run verifySignature (init devices0) cs = Some s ->
  EvSetDevices h u ds ∈ st_log s -> d ∈ ds -> passes_prechecks u d.
Proof.
  intros Hrun He Hd.
  assert (Hc : checked_writes s).
  { eapply (run_invariant verifySignature); [|apply checked_writes_init|exact Hrun].
    intros ???. apply checked_writes_step. }
  destruct Hc as (_ & _ & _ & H4).
  eapply Forall_forall; [apply (H4 _ _ _ He)|exact Hd].
Qed.
End Checked_run.

Lemma ex_continue_skip c k d rest r :
  precheck (ex_user c) k d = inl r ->
  ex_continue c ((k, d) :: rest) =
    (fst (ex_continue c rest), EvWarn r (ex_user c) k :: snd (ex_continue c rest)).
Proof. intros Hp. simpl. rewrite Hp. by destruct (ex_continue c rest). Qed.

(** C6: a claim whose self-reported user id or device id differs from the
    keys it was listed under is skipped with a "server lying" warning,
    whatever its keys and signatures; and every device of every device
    list written to the store reports the user it was written for and
    passes the identity check under its own device id. *)
Theorem identity_mismatch_excluded :
  (forall c k d rest, user_id d <> ex_user c \/ device_id d <> k ->
     ex_continue c ((k, d) :: rest) =
       (fst (ex_continue c rest), EvWarn ServerLying (ex_user c) k :: snd (ex_continue c rest))) /\
  (forall verifySignature devices0 cs s h u ds d,
     run verifySignature (init devices0) cs = Some s ->
     EvSetDevices h u ds ∈ st_log s -> d ∈ ds ->
     user_id d = u /\ exists ed, precheck u (device_id d) d = inr ed).
Proof.
  split.
  - intros c k d rest Hne. apply ex_continue_skip. unfold precheck.
    destruct Hne as [Hne|Hne].
    + rewrite (proj2 (String.eqb_neq _ _) Hne). reflexivity.
    + rewrite (proj2 (String.eqb_neq _ _) Hne), orb_true_r. reflexivity.
  - intros verifySignature devices0 cs s h u ds d Hrun He Hd.
    destruct (checked_writes_run _ _ _ _ _ _ _ _ Hrun He Hd) as [ed Hp].
    split; [|by exists ed]. by destruct (precheck_inr _ _ _ _ Hp).
Qed.

(** C7: a claim lacking its Ed25519 or its Curve25519 key under the key
    names for the device id it was listed under is skipped with a warning;
    and every device of every device list written to the store carries
    both keys under the key names for its own device id. *)
Theorem missing_key_excluded :
  (forall c k d rest,
     truthy (get (keys d) (key_name DeviceKeyAlgorithm_Ed25119 k)) = false \/
     truthy (get (keys d) (key_name DeviceKeyAlgorithm_Curve25519 k)) = false ->
     exists r, (r = ServerLying \/ r = MissingKey) /\
     ex_continue c ((k, d) :: rest) =
       (fst (ex_continue c rest), EvWarn r (ex_user c) k :: snd (ex_continue c rest))) /\
  (forall verifySignature devices0 cs s h u ds d,
     run verifySignature (init devices0) cs = Some s ->
     EvSetDevices h u ds ∈ st_log s -> d ∈ ds ->
     truthy (get (keys d) (key_name DeviceKeyAlgorithm_Ed25119 (device_id d))) = true /\
     truthy (get (keys d) (key_name DeviceKeyAlgorithm_Curve25519 (device_id d))) = true).
Proof.
  split.
  - intros c k d rest Hk.
    destruct (precheck (ex_user c) k d) as [r|ed] eqn:Hp.
    + exists r. split; [|by apply ex_continue_skip].
      revert Hp. unfold precheck.
      destruct (_ || _); [intros [= <-]; auto|].
      destruct (_ || _); [intros [= <-]; auto|].
      destruct (get _ _); intros [= <-]; auto.
    + destruct (precheck_inr _ _ _ _ Hp) as (_ & _ & _ & E1 & E2).
      destruct Hk as [Hk|Hk]; congruence.
  - intros verifySignature devices0 cs s h u ds d Hrun He Hd.
    destruct (checked_writes_run _ _ _ _ _ _ _ _ Hrun He Hd) as [ed Hp].
    by destruct (precheck_inr _ _ _ _ Hp) as (_ & _ & _ & E1 & E2).
Qed.

(** C1 witness: the changed key E2 of D1 is rejected while E1 is stored. *)
Lemma changed_key_rejected_witness :
  st_tasks repin_state !! 1 = Some (TExRead repin_ctx "D1" (alice_device "D1" "E2") "E2") /\
  find (fun d => String.eqb (device_id d) "D1") (stored (st_devices repin_state) alice)
    = Some (alice_device "D1" "E1") /\
  get (keys (alice_device "D1" "E1")) (key_name DeviceKeyAlgorithm_Ed25119 "D1") = Some "E1" /\
  exists s', step toy_verify repin_state (Resume 1) = Some s' /\
    st_log s' = [EvWarn Compromised alice "D1"] /\ st_devices s' = st_devices repin_state.
Proof.
  split; [reflexivity|]. split; [vm_compute; reflexivity|]. split; [reflexivity|].
  destruct (changed_key_rejected_at_check toy_verify repin_state 1 repin_ctx "D1"
              (alice_device "D1" "E2") "E2" (alice_device "D1" "E1") "E1"
              eq_refl ltac:(vm_compute; reflexivity) eq_refl ltac:(discriminate))
    as (s' & Hs & _ & Hl & Hd).
  exists s'. split; [exact Hs|]. split; [rewrite Hl; reflexivity|exact Hd].
Defined.

(** C2 witness: the hypothesis holds for the run [fetch_failure_prefix]. *)
Lemma fetch_failure_witness :
  run toy_verify (init ∅) (fetch_failure_prefix ++ [])%list = Some (fetch_failure_state ∅) /\
  st_handles (fetch_failure_state ∅) !! 0 = Some Pending /\
  st_outcomes (fetch_failure_state ∅) !! 0 = None /\
  st_outcomes (fetch_failure_state ∅) !! 2 = None.
Proof.
  split; [vm_compute; reflexivity|].
  destruct (fetch_failure_leaves_promise_pending toy_verify ∅ [] (fetch_failure_state ∅)
              ltac:(vm_compute; reflexivity)) as (_ & H1 & H2 & H3).
  auto.
Defined.

(** C4 witness: the hypothesis holds for the run [fetch_failure_prefix]. *)
Lemma waiter_never_fetches_witness :
  run toy_verify (init ∅) (fetch_failure_prefix ++ [])%list = Some (fetch_failure_state ∅) /\
  st_tasks (fetch_failure_state ∅) !! 2 = Some (TSync [alice] (SWait [0])) /\
  st_handles (fetch_failure_state ∅) !! 0 = Some Pending.
Proof.
  split; [vm_compute; reflexivity|].
  destruct (waiter_on_failed_pass_never_fetches toy_verify ∅ [] (fetch_failure_state ∅)
              ltac:(vm_compute; reflexivity)) as (H1 & H2 & _).
  auto.
Defined.

(** C3 witness: a pass listing only D2 for [alice] replaces the stored [D1] of [alice] by [D2]. *)
Lemma solo_pass_witness :
  st_tasks replace_state !! 1 = Some (TExFetch 0 [alice]) /\
  NoDup (map fst replace_response) /\
  fst (validate_user toy_verify (stored (st_devices replace_state) alice) alice
         [("D2", alice_device "D2" "E2")]) = [alice_device "D2" "E2"] /\
  exists n s',
    run toy_verify replace_state (FetchDone 1 (FetchOk replace_response) :: replicate n (Resume 1))
      = Some s' /\
    st_devices s' !! alice = Some [alice_device "D2" "E2"].
Proof.
  split; [reflexivity|]. split; [apply NoDup_singleton|]. split; [vm_compute; reflexivity|].
  destruct (solo_pass_replaces_device_lists toy_verify replace_state 1 0 [alice] replace_response
              eq_refl (NoDup_singleton _)) as (n & s' & Hrun & _ & _ & Hin & _).
  exists n, s'. split; [exact Hrun|].
  rewrite (Hin alice [("D2", alice_device "D2" "E2")] ltac:(apply list_elem_of_singleton; reflexivity)).
  vm_compute. reflexivity.
Defined.


(** C6 witness: a well-keyed, self-signed device of [bob] listed under [alice] is skipped. *)
Lemma identity_mismatch_witness :
  user_id impostor_device <> ex_user loop_ctx /\
  ex_continue loop_ctx [("D1", impostor_device)] =
    (TExWrite loop_ctx, [EvWarn ServerLying alice "D1"]).
Proof.
  assert (Hne : user_id impostor_device <> ex_user loop_ctx) by (vm_compute; congruence).
  split; [exact Hne|].
  rewrite (proj1 identity_mismatch_excluded loop_ctx "D1" impostor_device [] (or_introl Hne)).
  reflexivity.
Defined.

(** C7 witness: a device with no Curve25519 key is skipped. *)
Lemma missing_key_witness :
  truthy (get (keys keyless_device) (key_name DeviceKeyAlgorithm_Curve25519 "D1")) = false /\
  exists r, (r = ServerLying \/ r = MissingKey) /\
    ex_continue loop_ctx [("D1", keyless_device)] = (TExWrite loop_ctx, [EvWarn r alice "D1"]).
Proof.
  split; [reflexivity|].
  destruct (proj1 missing_key_excluded loop_ctx "D1" keyless_device [] (or_intror eq_refl))
    as (r & Hr & E).
  exists r. split; [exact Hr|]. rewrite E. reflexivity.
Defined.

(** C8 witness: D2 of [alice], never stored before, is committed. *)
Lemma first_use_witness :
  find (fun d => String.eqb (device_id d) "D2") (stored (st_devices replace_state) alice) = None /\
  exists n s' ds,
    run toy_verify replace_state (FetchDone 1 (FetchOk replace_response) :: replicate n (Resume 1))
      = Some s' /\
    st_devices s' !! alice = Some ds /\ alice_device "D2" "E2" ∈ ds.
Proof.
  split; [vm_compute; reflexivity|].
  destruct (first_use_claim_committed toy_verify replace_state 1 0 [alice] replace_response alice
              [("D2", alice_device "D2" "E2")] "D2" (alice_device "D2" "E2") "E2" "sig-E2"
              eq_refl (NoDup_singleton _) ltac:(apply list_elem_of_singleton; reflexivity)
              ltac:(apply list_elem_of_singleton; reflexivity)
              ltac:(vm_compute; reflexivity) ltac:(vm_compute; reflexivity)
              ltac:(vm_compute; reflexivity) ltac:(vm_compute; reflexivity))
    as (_ & H).
  exact H.
Defined.

(** C9 witness: [flagUsersOutdated([alice], true)] flags [alice], returns and starts a pass. *)
Lemma flag_contract_witness :
  match step toy_verify (flag_call [alice] true (init ∅)) (Resume 0) with
  | Some s' => alice ∈ st_outdated s' /\ st_outcomes s' !! 0 = Some Returned /\
      exists ph, st_tasks s' !! 1 = Some (TSync [alice] ph)
  | None => False
  end.
Proof.
  destruct (step toy_verify (flag_call [alice] true (init ∅)) (Resume 0)) as [s'|] eqn:E.
  - destruct (flag_users_outdated_contract toy_verify (flag_call [alice] true (init ∅)) 0 [alice] true s'
                eq_refl ltac:(simpl; lia) eq_refl E) as (H1 & H2 & H3 & _).
    split; [apply H1, list_elem_of_here|]. split; [exact H2|]. exact (H3 eq_refl).
  - vm_compute in E. discriminate E.
Defined.

(** C10 witness: [bob], requested but absent from the response, keeps the list stored for [bob]. *)
Lemma frame_witness :
  match run toy_verify (init frame_devices) frame_schedule with
  | Some s => st_devices s !! bob = frame_devices !! bob /\
      st_devices s !! alice = Some [alice_device "D1" "E1"]
  | None => False
  end.
Proof.
  destruct (run toy_verify (init frame_devices) frame_schedule) as [s|] eqn:E.
  - split.
    + apply (proj2 (proj2 (writes_only_for_response_keys toy_verify frame_devices frame_schedule s E))).
      vm_compute in E. injection E as <-.
      intros h resp Hin. simpl in Hin. mem_split; simplify_eq. vm_compute. set_solver.
    + vm_compute in E. injection E as <-. reflexivity.
  - vm_compute in E. discriminate E.
Defined.

(* ------------------------------------------------------------------ *)
(** ** Further properties of the device tracker *)

(** X2: the signature check of line 79 comes last: a device rejected
    for any reason other than an invalid signature gets the same verdict
    whatever the signature verifier answers. *)
Theorem verdict_verifier_consulted_last v v' cur u k d r :
  device_verdict v cur u k d = Some r -> r <> InvalidSignature ->
  device_verdict v' cur u k d = Some r.
Proof.
  unfold device_verdict. destruct (precheck u k d) as [r0|ed]; [done|].
  destruct (negb (pin_ok k ed cur)); [done|].
  destruct (get_signature u k d) as [sig|]; [|done].
  destruct (v d ed sig); [done|]. intros [= <-]. done.
Qed.

(** X5: a device whose Ed25519 key equals the one stored for its id gets
    the same verdict as a device never stored before (lines 63-71). *)
Theorem matching_pin_is_first_use v cur u k d ed e :
  precheck u k d = inr ed ->
  find (fun x => String.eqb (device_id x) k) cur = Some e ->
  get (keys e) (key_name DeviceKeyAlgorithm_Ed25119 k) = Some ed ->
  device_verdict v cur u k d = device_verdict v [] u k d.
Proof.
  intros Hp Hf He. unfold device_verdict. rewrite Hp. unfold pin_ok. rewrite Hf, He.
  by rewrite String.eqb_refl.
Qed.

Lemma settle_fulfilled h0 hs h :
  settle h0 Fulfilled hs !! h = Some Fulfilled -> h = h0 \/ hs !! h = Some Fulfilled.
Proof.
  unfold settle. destruct (hs !! h0) as [[]|]; auto.
  destruct (decide (h = h0)); [auto|]. rewrite lookup_insert_ne by done. auto.
Qed.

Lemma ex_next_user_none h resp users evs :
  ex_next_user h resp users = (None, evs) -> users = [] /\ evs = [EvResolve h].
Proof.
  unfold ex_next_user. destruct users as [|[u devs] rest]; [by intros [=]|].
  destruct (ex_continue _ _). by intros [=].
Qed.

Lemma ex_continue_warns c devs t evs :
  ex_continue c devs = (t, evs) -> forall e, e ∈ evs -> exists r u k, e = EvWarn r u k.
Proof.
  revert t evs. induction devs as [|[k d] rest IH]; intros t evs Hc; simpl in Hc.
  - simplify_eq/=. intros e E. by apply elem_of_nil in E.
  - destruct (precheck _ _ _).
    + destruct (ex_continue c rest) as [t' evs'] eqn:He. simplify_eq/=.
      intros e [->|E]%elem_of_cons; [eauto|]. by eapply IH.
    + simplify_eq/=. intros e E. by apply elem_of_nil in E.
Qed.

Lemma ex_next_user_warns h resp users t evs :
  ex_next_user h resp users = (Some t, evs) -> forall e, e ∈ evs -> exists r u k, e = EvWarn r u k.
Proof.
  unfold ex_next_user. destruct users as [|[u devs] rest]; [by intros [=]|].
  destruct (ex_continue _ devs) eqn:He. intros [= <- <-]. by eapply ex_continue_warns.
Qed.

Ltac warn_contra :=
  match goal with
  | E : ?e ∈ ?l, W : forall e, e ∈ ?l -> exists r u k, e = EvWarn r u k |- _ =>
      destruct (W _ E) as (? & ? & ? & ?); discriminate
  end.

Section Resolved.
Variable verifySignature : UserDevice -> string -> string -> bool.

Lemma resolved_after_writes_step s ch s' :
  resolved_after_writes s -> step verifySignature s ch = Some s' -> resolved_after_writes s'.
Proof.
  intros (H1 & H2 & H3) H.
  step_cases H; cbn [ex_resp ex_users] in *;
    try match goal with
    | E : ex_continue _ _ = _ |- _ => pose proof (ex_continue_warns _ _ _ _ E) as Wn
    | E : ex_next_user _ _ _ = (Some _, _) |- _ => pose proof (ex_next_user_warns _ _ _ _ _ E) as Wn
    end;
    repeat match goal with
    | E : ex_continue _ _ = _ |- _ =>
        apply ex_continue_ctx in E as [(?c' & ?Hctx & ?Eh & ?Er & ?Eu & ?Eus) ?]
    | E : ex_next_user _ _ _ = (None, _) |- _ => apply ex_next_user_none in E as [?Enil ->]
    | E : ex_next_user _ _ _ = _ |- _ => apply ex_next_user_ctx in E as [E ?];
        try (specialize (E _ eq_refl) as (?u & ?devs & ?c' & ?Eus & ?Hctx & ?Eh & ?Er & ?Eu))
    end.
  all: unfold resolved_after_writes, written_all; cbn [st_handles st_log st_tasks].
  all: split; [|split].
  all: lazymatch goal with
    | |- forall i t c, _ !! i = Some t -> task_ctx t = Some c -> _ =>
        let i0 := fresh "i" in let t0 := fresh "t" in let c0 := fresh "c" in
        let Hi := fresh "Hi" in let Ht := fresh "Ht" in
        intros i0 t0 c0 Hi Ht; tasks_split Hi; try subst t0;
        first
        [ discriminate
        | let pre := fresh "pre" in let d := fresh "d" in
          let G := fresh "G" in
          destruct (H1 _ _ _ Hi Ht) as (pre & d & ? & ? & G); exists pre, d;
          split; [done|split; [set_solver|]];
          let u := fresh "u" in let Hu := fresh "Hu" in
          intros u Hu; destruct (G u Hu) as [ds ?]; exists ds; set_solver
        | idtac ]
    | |- forall h, EvResolve h ∈ _ -> _ =>
        let h0 := fresh "h" in let He := fresh "He" in
        intros h0 He; mem_split;
        first
        [ discriminate
        | warn_contra
        | let resp := fresh "resp" in let G := fresh "G" in
          destruct (H2 _ He) as (resp & ? & G); exists resp;
          split; [set_solver|];
          let u := fresh "u" in let Hu := fresh "Hu" in
          intros u Hu; destruct (G u Hu) as [ds ?]; exists ds; set_solver
        | idtac ]
    | |- forall h, _ !! h = Some Fulfilled -> _ =>
        let h0 := fresh "h" in let Hh := fresh "Hh" in
        intros h0 Hh;
        first
        [ apply H3 in Hh; set_solver
        | apply lookup_insert_Some in Hh as [[_ [=]]|[_ Hh]]; apply H3 in Hh; set_solver
        | apply settle_fulfilled in Hh as [->|Hh]; [set_solver|apply H3 in Hh; set_solver]
        | idtac ]
    end.
  (* a task carrying a context moved on within the same user *)
  all: try (match goal with
            | Hc : task_ctx ?t = Some _, Ht' : task_ctx ?t = Some _ |- _ =>
                rewrite Hc in Ht'; injection Ht' as <-
            end).
  all: try (match goal with
            | Ht' : task_ctx (TExVerify _ _ _ _ _) = Some _ |- _ =>
                simpl in Ht'; injection Ht' as <-
            end).
  all: try (match goal with
            | H0 : _ !! _ = Some _ |- _ =>
                destruct (H1 _ _ _ H0 eq_refl) as (pre & d & Ed & Ef & G)
            end).
  all: try (exists pre, d; split; [done|split; [set_solver|]];
            intros u' Hu'; destruct (G u' Hu') as [ds ?]; exists ds; set_solver).
  all: try (rewrite Eh, Er, Eu, Eus; exists pre, d; split; [done|split; [set_solver|]];
            intros u' Hu'; destruct (G u' Hu') as [ds ?]; exists ds; set_solver).
  (* the executor passed to the next user after a write *)
  all: try (rewrite Eh, Er, Eu; rewrite Eus in Ed; exists (pre ++ [(ex_user c, d)]), devs;
            split; [rewrite Ed; by rewrite <- app_assoc|split; [set_solver|]];
            intros u' Hu'; rewrite map_app, elem_of_app in Hu';
            destruct Hu' as [Hu'|Hu'];
            [destruct (G u' Hu') as [ds ?]; exists ds; set_solver
            |apply list_elem_of_singleton in Hu'; simpl in Hu'; subst u';
             exists (ex_validated c); set_solver]).
  (* the executor started on the first user of a fetched response *)
  all: try (rewrite Er, Eh, Eu, Eus; exists [], devs; split; [done|split; [set_solver|]];
            intros u' Hu'; by apply elem_of_nil in Hu').
  (* resolve() after the last user *)
  all: try (injection He as ->;
            exists (ex_resp c); split; [set_solver|];
            intros u' Hu'; rewrite Ed, Enil, map_app, elem_of_app in Hu';
            destruct Hu' as [Hu'|Hu'];
            [destruct (G u' Hu') as [ds ?]; exists ds; set_solver
            |apply list_elem_of_singleton in Hu'; simpl in Hu'; subst u';
             exists (ex_validated c); set_solver]).
  (* resolve() on an empty response *)
  all: try (injection He as ->; exists device_keys; split; [set_solver|];
            intros u' Hu'; rewrite Enil in Hu'; by apply elem_of_nil in Hu').
Qed.
End Resolved.

Lemma resolved_after_writes_init devices0 : resolved_after_writes (init devices0).
Proof.
  split; [|split].
  - intros ??? E. simpl in E. by rewrite lookup_empty in E.
  - intros ? E. by apply elem_of_nil in E.
  - intros ? E. simpl in E. by rewrite lookup_empty in E.
Qed.

Section Fulfilled.
Variable verifySignature : UserDevice -> string -> string -> bool.

(** X7: in every run a promise of line 43 is fulfilled only after its
    pass fetched a response (line 44) and wrote the device list of every
    user of that response (line 88). *)
Theorem fulfilled_after_all_writes devices0 cs s h :
  run verifySignature (init devices0) cs = Some s ->
  st_handles s !! h = Some Fulfilled ->
  exists resp, EvFetchOk h resp ∈ st_log s /\
    forall u, u ∈ map fst resp -> exists ds, EvSetDevices h u ds ∈ st_log s.
Proof.
  intros Hrun Hh.
  assert (Hinv : resolved_after_writes s).
  { eapply (run_invariant verifySignature resolved_after_writes);
      [|apply resolved_after_writes_init|exact Hrun].
    intros ???. apply resolved_after_writes_step. }
  destruct Hinv as (_ & H2 & H3). exact (H2 _ (H3 _ Hh)).
Qed.
End Fulfilled.

(** X2 witness: a device without Curve25519 key is reported missing a key
    under any verifier. *)
Lemma verdict_verifier_consulted_last_witness :
  device_verdict toy_verify [] alice "D1" keyless_device = Some MissingKey /\
  device_verdict (fun _ _ _ => false) [] alice "D1" keyless_device = Some MissingKey.
Proof.
  assert (E : device_verdict toy_verify [] alice "D1" keyless_device = Some MissingKey)
    by (vm_compute; reflexivity).
  split; [exact E|].
  apply (verdict_verifier_consulted_last toy_verify _ _ _ _ _ _ E). discriminate.
Defined.

(** X5 witness: D1 with the stored key E1. *)
Lemma matching_pin_is_first_use_witness :
  device_verdict toy_verify [alice_device "D1" "E1"] alice "D1" (alice_device "D1" "E1") =
  device_verdict toy_verify [] alice "D1" (alice_device "D1" "E1").
Proof.
  apply (matching_pin_is_first_use toy_verify [alice_device "D1" "E1"] alice "D1"
           (alice_device "D1" "E1") "E1" (alice_device "D1" "E1"));
    vm_compute; reflexivity.
Defined.

(** X7 witness: the run [frame_schedule] fulfils promise 0. *)
Lemma fulfilled_after_all_writes_witness :
  match run toy_verify (init frame_devices) frame_schedule with
  | Some s => st_handles s !! 0 = Some Fulfilled /\
      exists resp, EvFetchOk 0 resp ∈ st_log s /\
        forall u, u ∈ map fst resp -> exists ds, EvSetDevices 0 u ds ∈ st_log s
  | None => False
  end.
Proof.
  destruct (run toy_verify (init frame_devices) frame_schedule) as [s|] eqn:E.
  - assert (Hf : st_handles s !! 0 = Some Fulfilled)
      by (vm_compute in E; injection E as <-; reflexivity).
    split; [exact Hf|].
    exact (fulfilled_after_all_writes toy_verify frame_devices frame_schedule s 0 E Hf).
  - vm_compute in E. discriminate E.
Defined.

Lemma settle_keeps_fulfilled h0 v hs h :
  hs !! h = Some Fulfilled -> settle h0 v hs !! h = Some Fulfilled.
Proof.
  unfold settle. intros E. destruct (hs !! h0) as [[]|] eqn:E0; try done.
  destruct (decide (h = h0)) as [->|?]; [congruence|]. by rewrite lookup_insert_ne.
Qed.

Lemma settle_lookup_Some h0 w hs h v :
  settle h0 w hs !! h = Some v -> exists v', hs !! h = Some v'.
Proof.
  unfold settle. destruct (hs !! h0) as [[]|] eqn:E0; try eauto.
  destruct (decide (h = h0)) as [->|?]; [eauto|]. rewrite lookup_insert_ne by done. eauto.
Qed.

Ltac lookup_ne :=
  repeat first
    [ rewrite lookup_insert_ne by (congruence || lia)
    | rewrite lookup_delete_ne by (congruence || lia) ].

Section Calls.
Variable verifySignature : UserDevice -> string -> string -> bool.

Lemma call_invariant_step s ch s' :
  call_invariant s -> step verifySignature s ch = Some s' -> call_invariant s'.
Proof.
  intros (HA & HB & HC & HD & HE) H.
  step_cases H;
    try match goal with
    | E : ex_continue _ _ = _ |- _ => apply ex_continue_handle in E as [_ ?]
    | E : ex_next_user _ _ _ = _ |- _ => apply ex_next_user_handle in E as [_ ?]
    end.
  all: repeat match goal with
       | T : st_tasks ?S !! ?t = Some _ |- _ =>
           assert_fails (assert (t < st_next_tid S) by assumption);
           assert (t < st_next_tid S)
             by (destruct (decide (t < st_next_tid S)); [done|];
                 rewrite (proj1 (HD t ltac:(lia))) in T; discriminate)
       end.
  all: unfold call_invariant; cbn [st_handles st_log st_tasks st_outcomes st_next_tid st_next_handle].
  all: split; [|split; [|split; [|split]]].
  all: lazymatch goal with
    | |- forall h v, _ -> _ < _ =>
        let h0 := fresh "h" in let v := fresh "v" in let Hh := fresh "Hh" in
        intros h0 v Hh;
        repeat match type of Hh with
        | <[_:=_]> _ !! _ = Some _ => apply lookup_insert_Some in Hh as [[<- _]|[_ Hh]]; [lia|]
        | settle _ _ _ !! _ = Some _ => apply settle_lookup_Some in Hh as [? Hh]
        end;
        first [apply HE in Hh; lia | idtac]
    | |- forall i, _ <= i -> _ =>
        let i := fresh "i" in let Hi := fresh "Hi" in
        intros i Hi; destruct (HD i ltac:(lia)) as (Dt & Do & Df);
        split; [|split];
        [ try (lookup_ne; done)
        | try (repeat case_match; lookup_ne; done)
        | let h0 := fresh "h" in let us0 := fresh "us" in let Hf := fresh "Hf" in
          intros h0 us0 Hf; mem_split;
          first [ exact (Df _ _ Hf) | congruence | lia | (injection Hf as -> _ _; lia)
                | (eapply Forall_forall in Hf; [|eassumption]; discriminate) | idtac ] ]
    | |- forall i t, _ -> _ = None =>
        let i := fresh "i" in let t := fresh "t" in let Hi := fresh "Hi" in
        intros i t Hi; tasks_split Hi; subst; lookup_ne;
        first [ exact (HC _ _ Hi)
              | match goal with |- st_outcomes _ !! ?x = None =>
                  exact (proj1 (proj2 (HD x ltac:(lia)))) end
              | match goal with T : st_tasks _ !! _ = Some _ |- _ => exact (HC _ _ T) end
              | idtac ]
    | |- forall i h us t, _ -> _ -> _ =>
        let i := fresh "i" in let h0 := fresh "h" in let us0 := fresh "us" in
        let t := fresh "t" in let Hf := fresh "Hf" in let Ht := fresh "Ht" in
        intros i h0 us0 t Hf Ht; mem_split;
        try (match type of Hf with EvFetch ?x _ _ ∈ st_log ?S =>
          assert (x < st_next_tid S)
            by (destruct (decide (x < st_next_tid S)); [done|];
                destruct (proj2 (proj2 (HD x ltac:(lia))) _ _ Hf)) end);
        tasks_split Ht; subst;
        first [ discriminate
              | (eapply Forall_forall in Hf; [|eassumption]; discriminate)
              | exact (HB _ _ _ _ Hf Ht)
              | lia
              | match goal with T : st_tasks _ !! _ = Some _ |- _ =>
                  pose proof (HB _ _ _ _ Hf T); discriminate end
              | (injection Hf; intros; subst; first
                  [ congruence | lia
                  | (rewrite (proj1 (HD _ (le_n _))) in Ht; discriminate) ])
              | idtac ]
    | |- forall i h us, _ -> _ -> _ =>
        let i := fresh "i" in let h0 := fresh "h" in let us0 := fresh "us" in
        let Hf := fresh "Hf" in let Ho := fresh "Ho" in
        intros i h0 us0 Hf Ho; mem_split;
        first [ discriminate
              | (eapply Forall_forall in Hf; [|eassumption]; discriminate)
              | idtac ];
        try (match type of Ho with <[?t:=_]> _ !! ?x = _ =>
               destruct (decide (x = t)) as [->|?];
               [rewrite lookup_insert_eq in Ho|rewrite lookup_insert_ne in Ho by done] end);
        try discriminate;
        try (injection Hf as -> -> ->;
             match type of Ho with _ !! ?x = _ =>
               first [ rewrite (proj1 (proj2 (HD x ltac:(lia)))) in Ho; discriminate
                     | match goal with T : st_tasks _ !! x = Some _ |- _ =>
                         rewrite (HC _ _ T) in Ho; discriminate end ] end);
        try (let Hful := fresh "Hful" in
             pose proof (HA _ _ _ Hf Ho) as Hful; pose proof (HE _ _ Hful);
             first [ exact Hful | (rewrite lookup_insert_ne by lia; exact Hful)
                   | (apply settle_keeps_fulfilled; exact Hful) ]);
        try (match goal with T : st_tasks _ !! _ = Some _ |- _ =>
               let Heq := fresh "Heq" in
               pose proof (HB _ _ _ _ Hf T) as Heq;
               first [ discriminate Heq | (injection Heq; intros; subst; assumption) ] end);
        try (injection Hf; intros; lia)
    end.
Qed.
End Calls.

Lemma register_all_cases us h r u x :
  register_all us h r !! u = Some x -> x = h \/ r !! u = Some x.
Proof.
  destruct (decide (u ∈ us)) as [Hin|Hin].
  - rewrite register_all_lookup by done. intros [= ->]. auto.
  - rewrite register_all_notin by done. auto.
Qed.

Section Registry.
Variable verifySignature : UserDevice -> string -> string -> bool.

Lemma registry_step s ch s' :
  registry_bound s -> step verifySignature s ch = Some s' ->
  registry_bound s' /\
  forall u h, st_registry s !! u = Some h -> exists h', st_registry s' !! u = Some h' /\ h <= h'.
Proof.
  intros Hb H. unfold registry_bound in *.
  step_cases H; cbn [st_registry st_next_handle] in *.
  all: split; intros u h0 Hr.
  all: try (exists h0; split; [exact Hr|lia]).
  all: try (apply Hb in Hr; lia).
  all: try (apply register_all_cases in Hr as [->|Hr]; [lia|apply Hb in Hr; lia]).
  all: destruct (decide (u ∈ userIds)) as [Hin|Hin];
         [ exists (st_next_handle s); rewrite register_all_lookup by done;
           apply Hb in Hr; split; [done|lia]
         | exists h0; rewrite register_all_notin by done; split; [done|lia] ].
Qed.

(** X8: an entry of [deviceListUpdates] is never removed, only replaced
    by a later promise, so every later call for that user finds a promise
    at line 38. *)
Theorem registry_entries_persist devices0 cs1 cs2 s1 s2 u h us :
  run verifySignature (init devices0) cs1 = Some s1 ->
  run verifySignature s1 cs2 = Some s2 ->
  st_registry s1 !! u = Some h -> u ∈ us ->
  exists h', st_registry s2 !! u = Some h' /\ h <= h' /\
    h' ∈ existing_promises (st_registry s2) us.
Proof.
  intros Hrun1 Hrun2 Hr Hu.
  assert (Hb1 : registry_bound s1).
  { eapply (run_invariant verifySignature registry_bound); [| |exact Hrun1].
    - intros ???? Hs. exact (proj1 (registry_step _ _ _ H Hs)).
    - intros ?? E. cbn [st_registry init] in E. by rewrite lookup_empty in E. }
  assert (Hp : registry_bound s2 /\ exists h', st_registry s2 !! u = Some h' /\ h <= h').
  { eapply (run_invariant verifySignature
              (fun s => registry_bound s /\ exists h', st_registry s !! u = Some h' /\ h <= h'));
      [|split; [exact Hb1|exists h; split; [exact Hr|lia]]|exact Hrun2].
    intros s0 ch s0' [Hb0 (h0 & Hr0 & Hle)] Hs.
    destruct (registry_step _ _ _ Hb0 Hs) as [Hb' Hkeep].
    split; [exact Hb'|]. destruct (Hkeep _ _ Hr0) as (h' & Hr' & Hle').
    exists h'. split; [exact Hr'|lia]. }
  destruct Hp as [_ (h' & Hr' & Hle)]. exists h'. split; [exact Hr'|]. split; [exact Hle|].
  by apply (existing_promises_elem _ _ u).
Qed.
End Registry.

Lemma call_invariant_init devices0 : call_invariant (init devices0).
Proof.
  split; [|split; [|split; [|split]]]; cbn [init st_log st_tasks st_outcomes st_handles].
  - intros ??? E. by apply elem_of_nil in E.
  - intros ???? E. by apply elem_of_nil in E.
  - intros ?? E. by rewrite lookup_empty in E.
  - intros ??. rewrite !lookup_empty. split; [done|split; [done|]].
    intros ?? E. by apply elem_of_nil in E.
  - intros ?? E. by rewrite lookup_empty in E.
Qed.

Section Returns.
Variable verifySignature : UserDevice -> string -> string -> bool.

(** X9: a call of [updateUsersDeviceLists] that issued its request
    returns only after its own promise is fulfilled (line 93), hence after
    its pass wrote every user of its response. *)
Theorem update_returns_after_own_pass devices0 cs s tid h us :
  run verifySignature (init devices0) cs = Some s ->
  EvFetch tid h us ∈ st_log s -> st_outcomes s !! tid = Some Returned ->
  st_handles s !! h = Some Fulfilled /\
  exists resp, EvFetchOk h resp ∈ st_log s /\
    forall u, u ∈ map fst resp -> exists ds, EvSetDevices h u ds ∈ st_log s.
Proof.
  intros Hrun Hf Ho.
  assert (Hc : call_invariant s).
  { eapply (run_invariant verifySignature call_invariant); [| |exact Hrun].
    - intros ???. apply call_invariant_step.
    - apply call_invariant_init. }
  assert (Hr : resolved_after_writes s).
  { eapply (run_invariant verifySignature resolved_after_writes); [| |exact Hrun].
    - intros ???. apply resolved_after_writes_step.
    - apply resolved_after_writes_init. }
  destruct Hc as (HA & _). destruct Hr as (_ & H2 & H3).
  pose proof (HA _ _ _ Hf Ho) as Hful. split; [exact Hful|].
  exact (H2 _ (H3 _ Hful)).
Qed.
End Returns.

(** X9 witness: in the run [frame_schedule] call 0 returns. *)
Lemma update_returns_after_own_pass_witness :
  match run toy_verify (init frame_devices) frame_schedule with
  | Some s => EvFetch 0 0 [alice; bob] ∈ st_log s /\ st_outcomes s !! 0 = Some Returned /\
      st_handles s !! 0 = Some Fulfilled
  | None => False
  end.
Proof.
  destruct (run toy_verify (init frame_devices) frame_schedule) as [s|] eqn:E.
  - assert (Hf : EvFetch 0 0 [alice; bob] ∈ st_log s)
      by (vm_compute in E; injection E as <-; simpl; left).
    assert (Ho : st_outcomes s !! 0 = Some Returned)
      by (vm_compute in E; injection E as <-; reflexivity).
    split; [exact Hf|]. split; [exact Ho|].
    exact (proj1 (update_returns_after_own_pass toy_verify frame_devices frame_schedule s 0 0
                    [alice; bob] E Hf Ho)).
  - vm_compute in E. discriminate E.
Defined.

(** X8 witness: [bob] registered by the first call of [frame_schedule]. *)
Lemma registry_entries_persist_witness :
  match run toy_verify (init frame_devices) [CallSync [alice; bob]] with
  | Some s1 =>
      match run toy_verify s1 (tail frame_schedule) with
      | Some s2 => exists h', st_registry s2 !! bob = Some h' /\ 0 <= h' /\
                   h' ∈ existing_promises (st_registry s2) [bob]
      | None => False
      end
  | None => False
  end.
Proof.
  destruct (run toy_verify (init frame_devices) [CallSync [alice; bob]]) as [s1|] eqn:E1.
  - destruct (run toy_verify s1 (tail frame_schedule)) as [s2|] eqn:E2.
    + apply (registry_entries_persist toy_verify frame_devices [CallSync [alice; bob]]
               (tail frame_schedule) s1 s2 bob 0 [bob] E1 E2).
      * vm_compute in E1. injection E1 as <-. reflexivity.
      * apply list_elem_of_here.
    + vm_compute in E1. injection E1 as <-. vm_compute in E2. discriminate E2.
  - vm_compute in E1. discriminate E1.
Defined.

Lemma omap_fetch_none (evs : list Event) :
  Forall (fun e => fetch_of e = None) evs -> omap fetch_of evs = [].
Proof.
  intros F. apply elem_of_nil_inv. intros c (e & He & Hf)%list_elem_of_omap.
  rewrite Forall_forall in F. rewrite F in Hf by exact He. discriminate.
Qed.

Lemma omap_fetch_nil : omap fetch_of [] = [].
Proof. reflexivity. Qed.

Lemma omap_fetch_skip e (l : list Event) :
  fetch_of e = None -> omap fetch_of (e :: l) = omap fetch_of l.
Proof. intros He. simpl. rewrite He. reflexivity. Qed.

Lemma omap_fetch_call c h us (l : list Event) :
  omap fetch_of (EvFetch c h us :: l) = c :: omap fetch_of l.
Proof. reflexivity. Qed.

Lemma omap_fetch_elem (l : list Event) c :
  c ∈ omap fetch_of l -> exists h us, EvFetch c h us ∈ l.
Proof.
  intros (e & He & Hf)%list_elem_of_omap.
  destruct e; simplify_eq/=; eauto.
Qed.

Section Unique.
Variable verifySignature : UserDevice -> string -> string -> bool.

Lemma fetch_unique_step s ch s' :
  call_invariant s -> fetch_unique s -> step verifySignature s ch = Some s' -> fetch_unique s'.
Proof.
  intros (HA & HB & HC & HD & HE) (U1 & U2) H.
  step_cases H;
    try match goal with
    | E : ex_continue _ _ = _ |- _ => apply ex_continue_handle in E as [_ ?]
    | E : ex_next_user _ _ _ = _ |- _ => apply ex_next_user_handle in E as [_ ?]
    end.
  all: unfold fetch_unique; cbn [st_log st_next_handle].
  all: split.
  all: lazymatch goal with
    | |- forall i h us, _ -> _ < _ =>
        let i := fresh "i" in let h0 := fresh "h" in let us0 := fresh "us" in
        let Hf := fresh "Hf" in
        intros i h0 us0 Hf; mem_split;
        first [ discriminate
              | (eapply Forall_forall in Hf; [|eassumption]; discriminate)
              | (apply U2 in Hf; lia)
              | (injection Hf; intros; subst; lia) ]
    | |- forall i h us i' h' us', _ -> _ -> _ =>
        let i := fresh "i" in let h0 := fresh "h" in let us0 := fresh "us" in
        let i' := fresh "i'" in let h' := fresh "h'" in let us' := fresh "us'" in
        let Hf := fresh "Hf" in let Hf' := fresh "Hf'" in
        intros i h0 us0 i' h' us' Hf Hf'; mem_split;
        try discriminate;
        try (eapply Forall_forall in Hf; [|eassumption]; discriminate);
        try (eapply Forall_forall in Hf'; [|eassumption]; discriminate);
        first
        [ exact (U1 _ _ _ _ _ _ Hf Hf')
        | (rewrite <- Hf in Hf'; injection Hf'; intros; subst; auto)
        | (injection Hf' as -> -> ->;
           pose proof (U2 _ _ _ Hf);
           split; intros Heq; exfalso; [subst i|lia];
           first [ exact (proj2 (proj2 (HD _ (le_n _))) _ _ Hf)
                 | match goal with T : st_tasks _ !! _ = Some (TSync _ (SWait _)) |- _ =>
                     pose proof (HB _ _ _ _ Hf T); discriminate end ])
        | (injection Hf as -> -> ->;
           pose proof (U2 _ _ _ Hf');
           split; intros Heq; exfalso; [subst i'|lia];
           first [ exact (proj2 (proj2 (HD _ (le_n _))) _ _ Hf')
                 | match goal with T : st_tasks _ !! _ = Some (TSync _ (SWait _)) |- _ =>
                     pose proof (HB _ _ _ _ Hf' T); discriminate end ])
        | idtac ]
    end.
Qed.

Lemma fetch_calls_nodup_step s ch s' :
  call_invariant s -> NoDup (omap fetch_of (st_log s)) ->
  step verifySignature s ch = Some s' -> NoDup (omap fetch_of (st_log s')).
Proof.
  intros (HA & HB & HC & HD & HE) Hn H.
  step_cases H;
    repeat match goal with
    | E : ex_continue _ _ = _ |- _ => apply ex_continue_handle in E as [_ ?]
    | E : ex_next_user _ _ _ = _ |- _ => apply ex_next_user_handle in E as [_ ?]
    end.
  all: rewrite ?omap_app, ?omap_fetch_call;
    repeat (rewrite omap_fetch_skip by reflexivity); rewrite ?omap_fetch_nil.
  all: repeat match goal with
    | F : Forall _ ?evs |- _ =>
        rewrite (omap_fetch_none evs F) in *; clear F
    end.
  all: rewrite ?app_nil_r; try exact Hn.
  all: apply NoDup_app; split; [exact Hn|]; split; [|apply NoDup_singleton].
  all: intros c Hc ->%list_elem_of_singleton; apply omap_fetch_elem in Hc as (h0 & us0 & Hf).
  all: first [ exact (proj2 (proj2 (HD _ (le_n _))) _ _ Hf)
             | match goal with T : st_tasks _ !! _ = Some (TSync _ (SWait _)) |- _ =>
                 pose proof (HB _ _ _ _ Hf T); discriminate end ].
Qed.

Lemma fetch_unique_init devices0 : fetch_unique (init devices0).
Proof.
  split; cbn [init st_log].
  - intros ?????? E. by apply elem_of_nil in E.
  - intros ??? E. by apply elem_of_nil in E.
Qed.

(** X12: in every run each call issues at most one request (line 44):
    the calls of the requests in the log are pairwise distinct. Two
    requests carry the same promise iff they come from the same call. *)
Theorem one_request_per_call devices0 cs s :
  run verifySignature (init devices0) cs = Some s ->
  NoDup (omap fetch_of (st_log s)) /\
  forall i h us i' h' us', EvFetch i h us ∈ st_log s -> EvFetch i' h' us' ∈ st_log s ->
    (i = i' <-> h = h') /\ (i = i' -> us = us').
Proof.
  intros Hrun.
  assert (Hu : call_invariant s /\ fetch_unique s /\ NoDup (omap fetch_of (st_log s))).
  { eapply (run_invariant verifySignature
              (fun s => call_invariant s /\ fetch_unique s /\ NoDup (omap fetch_of (st_log s))));
      [| |exact Hrun].
    - intros s0 ch s1 (Hc & Hu & Hn) Hs. split; [|split].
      + exact (call_invariant_step _ _ _ _ Hc Hs).
      + exact (fetch_unique_step _ _ _ Hc Hu Hs).
      + exact (fetch_calls_nodup_step _ _ _ Hc Hn Hs).
    - split; [apply call_invariant_init|split; [apply fetch_unique_init|constructor]]. }
  destruct Hu as (_ & [U1 _] & Hn). split; [exact Hn|].
  intros i h us i' h' us' Hf Hf'. destruct (U1 _ _ _ _ _ _ Hf Hf') as [Hi Hh].
  split; [split; [intros E; exact (proj1 (Hi E))|exact Hh]|intros E; exact (proj2 (Hi E))].
Qed.
End Unique.

(** X12 witness: the run [overlap_schedule], where calls 2 and 3 issue
    requests with promises 1 and 2. *)
Lemma one_request_per_call_witness :
  match run toy_verify (init ∅) overlap_schedule with
  | Some s => NoDup (omap fetch_of (st_log s)) /\
      EvFetch 2 1 [alice; bob] ∈ st_log s /\ EvFetch 3 2 [alice; bob] ∈ st_log s /\
      (2 = 3 <-> 1 = 2)
  | None => False
  end.
Proof.
  destruct (run toy_verify (init ∅) overlap_schedule) as [s|] eqn:E.
  - assert (H1 : EvFetch 2 1 [alice; bob] ∈ st_log s)
      by (vm_compute in E; injection E as <-; set_solver).
    assert (H2 : EvFetch 3 2 [alice; bob] ∈ st_log s)
      by (vm_compute in E; injection E as <-; set_solver).
    destruct (one_request_per_call toy_verify ∅ overlap_schedule s E) as [Hn Hu].
    split; [exact Hn|]. split; [exact H1|]. split; [exact H2|].
    exact (proj1 (Hu 2 1 _ 3 2 _ H1 H2)).
  - vm_compute in E. discriminate E.
Defined.
